(** * API gateway: envelope cipher, relay dispatcher and error translator

    A shallow embedding of the gateway's helper module (relay, handleError,
    encryptKey, decryptKey, encryptData, decryptData, decryptRequest,
    encryptResponse).  The functions are glue around Node's [crypto],
    [Buffer], [JSON] and lodash's [get]; the embedding keeps that shape:

    - byte strings ([Buffer]) are lists of [ascii]; hexadecimal and base64
      are written out bit by bit;
    - RSA with PKCS#1 v1.5 padding is written out over [Z] (RFC 8017), so
      that both directions of the asymmetric operation can be run;
    - what depends on the platform and on the caller's choice of algorithm
      (JSON, the symmetric ciphers of OpenSSL, PEM decoding) is a record of
      operations, [Runtime], over which every function is parametric;
    - exceptions, the entropy source and the list of calls made into the
      crypto module are threaded through a small state-and-error monad. *)

From Stdlib Require Import ZArith List String Ascii Bool Lia Zpow_facts.
From Stdlib Require Import DecimalString.
From Bignums Require Import BigZ.
Import ListNotations.

Local Open Scope string_scope.
Local Open Scope list_scope.
Local Open Scope Z_scope.

Set Warnings "-register-all".

(** ** Bytes *)

(** A [Buffer] is a sequence of octets. *)
Definition Buffer := list ascii.

Definition byte_of_Z (z : Z) : ascii := ascii_of_N (Z.to_N (z mod 256)).
Definition Z_of_byte (b : ascii) : Z := Z.of_N (N_of_ascii b).

Definition is_zero_byte (b : ascii) : bool := Ascii.eqb b zero.

(** [Buffer.from(s, 'utf8')] and back.  A JavaScript string is represented
    by its UTF-8 encoding, so encoding a string is reading its octets. *)
Definition bytes_of_string (s : string) : Buffer := list_ascii_of_string s.
Definition string_of_bytes (b : Buffer) : string := string_of_list_ascii b.

(** ** Hexadecimal: [buf.toString('hex')] *)

Module Hex.

Definition digit (b3 b2 b1 b0 : bool) : ascii :=
  match b3, b2, b1, b0 with
  | false, false, false, false => "0"
  | false, false, false, true  => "1"
  | false, false, true,  false => "2"
  | false, false, true,  true  => "3"
  | false, true,  false, false => "4"
  | false, true,  false, true  => "5"
  | false, true,  true,  false => "6"
  | false, true,  true,  true  => "7"
  | true,  false, false, false => "8"
  | true,  false, false, true  => "9"
  | true,  false, true,  false => "a"
  | true,  false, true,  true  => "b"
  | true,  true,  false, false => "c"
  | true,  true,  false, true  => "d"
  | true,  true,  true,  false => "e"
  | true,  true,  true,  true  => "f"
  end%char.

(** Two digits per octet, high nibble first. *)
Definition of_byte (b : ascii) : list ascii :=
  let '(Ascii b0 b1 b2 b3 b4 b5 b6 b7) := b in
  [digit b7 b6 b5 b4; digit b3 b2 b1 b0].

Fixpoint encode (bs : Buffer) : list ascii :=
  match bs with
  | [] => []
  | b :: bs' => of_byte b ++ encode bs'
  end.

(** The characters 0-9 and a-f. *)
Definition is_lower_hex (c : ascii) : bool :=
  let n := N_of_ascii c in
  ((48 <=? n) && (n <=? 57) || (97 <=? n) && (n <=? 102))%N.

End Hex.

Definition toString_hex (b : Buffer) : string := string_of_bytes (Hex.encode b).

(** [s.slice(0, n)] on a string whose characters are single octets (the
    only strings it is applied to here are hexadecimal). *)
Definition slice0 (n : nat) (s : string) : string :=
  string_of_bytes (firstn n (bytes_of_string s)).

(** ** Base64: [buf.toString('base64')] and [Buffer.from(s, 'base64')] *)

Module Base64.

(** Six bits, most significant first. *)
Definition sextet : Type := (bool * bool * bool * bool * bool * bool)%type.

Definition index (s : sextet) : N :=
  let '(b5, b4, b3, b2, b1, b0) := s in
  (N.b2n b0 + 2 * (N.b2n b1 + 2 * (N.b2n b2 + 2 * (N.b2n b3
     + 2 * (N.b2n b4 + 2 * N.b2n b5)))))%N.

(** The alphabet A-Z a-z 0-9 + / *)
Definition char (s : sextet) : ascii :=
  let i := index s in
  if (i <? 26)%N then ascii_of_N (65 + i)
  else if (i <? 52)%N then ascii_of_N (97 + (i - 26))
  else if (i <? 62)%N then ascii_of_N (48 + (i - 52))
  else if (i =? 62)%N then "+"%char else "/"%char.

Definition of_index (i : N) : sextet :=
  (N.testbit i 5, N.testbit i 4, N.testbit i 3,
   N.testbit i 2, N.testbit i 1, N.testbit i 0).

(** The value of a character; Node's decoder also accepts the URL-safe
    "-" and "_". *)
Definition value_of (c : ascii) : option sextet :=
  let n := N_of_ascii c in
  if ((65 <=? n) && (n <=? 90))%N then Some (of_index (n - 65))
  else if ((97 <=? n) && (n <=? 122))%N then Some (of_index (n - 97 + 26))
  else if ((48 <=? n) && (n <=? 57))%N then Some (of_index (n - 48 + 52))
  else if ((n =? 43) || (n =? 45))%N then Some (of_index 62)
  else if ((n =? 47) || (n =? 95))%N then Some (of_index 63)
  else None.

Definition pad : ascii := "="%char.

Definition q1 (a : ascii) : sextet :=
  let '(Ascii a0 a1 a2 a3 a4 a5 a6 a7) := a in (a7, a6, a5, a4, a3, a2).
Definition q2 (a b : ascii) : sextet :=
  let '(Ascii a0 a1 a2 a3 a4 a5 a6 a7) := a in
  let '(Ascii b0 b1 b2 b3 b4 b5 b6 b7) := b in (a1, a0, b7, b6, b5, b4).
Definition q3 (b c : ascii) : sextet :=
  let '(Ascii b0 b1 b2 b3 b4 b5 b6 b7) := b in
  let '(Ascii c0 c1 c2 c3 c4 c5 c6 c7) := c in (b3, b2, b1, b0, c7, c6).
Definition q4 (c : ascii) : sextet :=
  let '(Ascii c0 c1 c2 c3 c4 c5 c6 c7) := c in (c5, c4, c3, c2, c1, c0).

(** Three octets give four characters; a last group of one or two octets
    is completed with zero bits and "=". *)
Fixpoint encode (bs : Buffer) : list ascii :=
  match bs with
  | a :: b :: c :: rest =>
      char (q1 a) :: char (q2 a b) :: char (q3 b c) :: char (q4 c) :: encode rest
  | [a; b] => [char (q1 a); char (q2 a b); char (q3 b zero); pad]
  | [a] => [char (q1 a); char (q2 a zero); pad; pad]
  | [] => []
  end.

(** Decoding as Node does it: characters outside the alphabet are
    skipped and the first "=" ends the input. *)
Fixpoint sextets (cs : list ascii) : list sextet :=
  match cs with
  | [] => []
  | c :: cs' =>
      if Ascii.eqb c pad then []
      else match value_of c with
           | Some s => s :: sextets cs'
           | None => sextets cs'
           end
  end.

Definition o1 (s1 s2 : sextet) : ascii :=
  let '(x5, x4, x3, x2, x1, x0) := s1 in
  let '(y5, y4, y3, y2, y1, y0) := s2 in Ascii y4 y5 x0 x1 x2 x3 x4 x5.
Definition o2 (s2 s3 : sextet) : ascii :=
  let '(y5, y4, y3, y2, y1, y0) := s2 in
  let '(z5, z4, z3, z2, z1, z0) := s3 in Ascii z2 z3 z4 z5 y0 y1 y2 y3.
Definition o3 (s3 s4 : sextet) : ascii :=
  let '(z5, z4, z3, z2, z1, z0) := s3 in
  let '(t5, t4, t3, t2, t1, t0) := s4 in Ascii t0 t1 t2 t3 t4 t5 z0 z1.

Fixpoint octets (ss : list sextet) : Buffer :=
  match ss with
  | s1 :: s2 :: s3 :: s4 :: rest => o1 s1 s2 :: o2 s2 s3 :: o3 s3 s4 :: octets rest
  | [s1; s2; s3] => [o1 s1 s2; o2 s2 s3]
  | [s1; s2] => [o1 s1 s2]
  | _ => []
  end.

Definition decode (cs : list ascii) : Buffer := octets (sextets cs).

End Base64.

Definition toString_base64 (b : Buffer) : string := string_of_bytes (Base64.encode b).
Definition from_base64 (s : string) : Buffer := Base64.decode (bytes_of_string s).

(** ** UTF-8 well-formedness (RFC 3629) *)

Module Utf8.

Definition between (lo hi : N) (b : ascii) : bool :=
  let n := N_of_ascii b in ((lo <=? n) && (n <=? hi))%N.

Definition cont : ascii -> bool := between 128 191.

(** [valid fuel bs]: [bs] is a sequence of well-formed UTF-8 characters.
    Each step consumes at least one octet, so the length of [bs] is enough fuel. *)
Fixpoint valid_fuel (fuel : nat) (bs : Buffer) : bool :=
  match fuel with
  | O => match bs with [] => true | _ => false end
  | S fuel' =>
      match bs with
      | [] => true
      | a :: r =>
          if between 0 127 a then valid_fuel fuel' r
          else match r with
          | b :: r1 =>
              if between 194 223 a then cont b && valid_fuel fuel' r1
              else match r1 with
              | c :: r2 =>
                  if between 224 224 a then between 160 191 b && cont c && valid_fuel fuel' r2
                  else if between 225 236 a || between 238 239 a
                       then cont b && cont c && valid_fuel fuel' r2
                  else if between 237 237 a then between 128 159 b && cont c && valid_fuel fuel' r2
                  else match r2 with
                  | d :: r3 =>
                      if between 240 240 a
                      then between 144 191 b && cont c && cont d && valid_fuel fuel' r3
                      else if between 241 243 a
                      then cont b && cont c && cont d && valid_fuel fuel' r3
                      else if between 244 244 a
                      then between 128 143 b && cont c && cont d && valid_fuel fuel' r3
                      else false
                  | [] => false
                  end
              | [] => false
              end
          | [] => false
          end
      end
  end.

Definition valid (bs : Buffer) : bool := valid_fuel (List.length bs) bs.

End Utf8.

(** A string of the model stands for a JavaScript string when its octets are
    well-formed UTF-8. *)
Definition well_formed (s : string) : bool := Utf8.valid (bytes_of_string s).

(** ** JavaScript values *)

(** The values that flow through the module: what [JSON.parse] produces,
    plus [undefined].  An object is its list of own enumerable properties in
    insertion order (the properties that [JSON.stringify], object rest and
    object spread see).  Numbers are kept to the integers. *)
Inductive value : Type :=
| VUndefined
| VNull
| VBool (b : bool)
| VNum (n : Z)
| VStr (s : string)
| VArr (items : list value)
| VObj (props : list (string * value)).

(** [if (v)] *)
Definition truthy (v : value) : bool :=
  match v with
  | VUndefined | VNull => false
  | VBool b => b
  | VNum n => negb (Z.eqb n 0)
  | VStr s => negb (String.eqb s "")
  | VArr _ | VObj _ => true
  end.

(** [v == null] *)
Definition nullish (v : value) : bool :=
  match v with
  | VUndefined | VNull => true
  | _ => false
  end.

Fixpoint lookup (k : string) (props : list (string * value)) : option value :=
  match props with
  | [] => None
  | (k', v) :: rest => if String.eqb k k' then Some v else lookup k rest
  end.

Definition has_key (k : string) (props : list (string * value)) : bool :=
  match lookup k props with Some _ => true | None => false end.

Definition keys (props : list (string * value)) : list string := map fst props.

(** [v[k]] for a value that is not null or undefined.  None of the property
    names read by the module is defined on a primitive or on an array, so
    only objects answer. *)
Definition prop (v : value) (k : string) : value :=
  match v with
  | VObj props => match lookup k props with Some x => x | None => VUndefined end
  | _ => VUndefined
  end.

(** ** Thrown values *)

(** Modelled from the spec: the error classes AuthenticationError,
    ResourceNotFound, ParserError and ServiceError, which the module imports
    from ./errors; that file is not among the sources.  Section 7 gives what
    each carries: a message, and for ParserError also the extensions and the
    locations. *)
Inductive AppError : Type :=
| AuthenticationError (message : value)
| ResourceNotFound (message : value)
| ParserError (message extensions locations : value)
| ServiceError (message : value).

(** What a function can throw: an application error, or an error of the
    platform ([TypeError], [SyntaxError], the errors of the crypto binding
    and of the Redis client). *)
Inductive Thrown : Type :=
| TypeError (message : string)
| SyntaxError (message : string)
| OpensslError (message : string)
| RedisError (message : string)
| Raised (error : AppError).

Coercion Raised : AppError >-> Thrown.

(** [error.message] *)
Definition error_message (e : Thrown) : value :=
  match e with
  | TypeError m | SyntaxError m | OpensslError m | RedisError m => VStr m
  | Raised (AuthenticationError m) | Raised (ResourceNotFound m)
  | Raised (ServiceError m) | Raised (ParserError m _ _) => m
  end.

(** The outcome of an expression: a value or a thrown error. *)
Inductive Result (A : Type) : Type :=
| Ok (a : A)
| Throw (e : Thrown).
Arguments Ok {A} a.
Arguments Throw {A} e.

(** [v.k]: reading a property of null or undefined throws. *)
Definition member (v : value) (k : string) : Result value :=
  if nullish v
  then Throw (TypeError ("Cannot read property '" ++ k ++ "' of null or undefined")%string)
  else Ok (prop v k).

(** ** lodash [get] *)

Fixpoint split_at (sep : ascii) (cs : list ascii) (cur : list ascii) : list string :=
  match cs with
  | [] => [string_of_bytes (rev cur)]
  | c :: cs' =>
      if Ascii.eqb c sep
      then string_of_bytes (rev cur) :: split_at sep cs' []
      else split_at sep cs' (c :: cur)
  end.

(** [stringToPath] for paths made of plain names separated by dots. *)
Definition split_dots (path : string) : list string :=
  split_at "."%char (bytes_of_string path) [].

Definition has_dot (path : string) : bool :=
  existsb (fun c => Ascii.eqb c "."%char) (bytes_of_string path).

(** [baseGet]: follow the keys while the object is not null or undefined;
    the result is undefined unless every key was followed. *)
Fixpoint baseGet (object : value) (path : list string) : value :=
  match path with
  | [] => object
  | k :: rest => if nullish object then VUndefined else baseGet (prop object k) rest
  end.

(** [get(object, path)]: a path that is itself a key of the object is used
    as it is ([isKey]); otherwise it is split at the dots ([castPath]). *)
Definition get (object : value) (path : string) : value :=
  let is_key :=
    negb (has_dot path)
    || match object with VObj props => has_key path props | _ => false end in
  baseGet object (if is_key then [path] else split_dots path).

(** ** RSA with PKCS#1 v1.5 padding (RFC 8017)

    [crypto.publicEncrypt], [crypto.publicDecrypt] and their private-key
    counterparts, as OpenSSL computes them with [RSA_PKCS1_PADDING]:
    encryption pads with block type 02 (random nonzero octets), the
    private-key "encryption" of a signature pads with block type 01 (octets
    ff), and each decryption accepts only the block type of its partner. *)

Module Rsa.

(** A key as read from its PEM text: a private key also holds the public
    exponent, so it can stand where a public key is expected. *)
Record Key : Type := {
  modulus : Z;
  publicExponent : Z;
  privateExponent : option Z
}.

Fixpoint OS2IP_from (acc : Z) (bs : Buffer) : Z :=
  match bs with
  | [] => acc
  | b :: rest => OS2IP_from (acc * 256 + Z_of_byte b) rest
  end.

(** Octet string to integer, big-endian. *)
Definition OS2IP (bs : Buffer) : Z := OS2IP_from 0 bs.

(** Integer to octet string of length [k], big-endian. *)
Fixpoint I2OSP (k : nat) (x : Z) : Buffer :=
  match k with
  | O => []
  | S k' => I2OSP k' (x / 256) ++ [byte_of_Z x]
  end.

(** [RSA_size]: the length of the modulus in octets. *)
Definition size (key : Key) : nat := Z.to_nat (Z.log2 (modulus key) / 8 + 1).

(** The public operation m^e mod n and the private one c^d mod n. *)
Definition RSAEP (key : Key) (m : Z) : Z :=
  Zpow_mod m (publicExponent key) (modulus key).

Definition RSADP (key : Key) (c : Z) : Result Z :=
  match privateExponent key with
  | Some d => Ok (Zpow_mod c d (modulus key))
  | None => Throw (OpensslError "missing private key")
  end.

Definition one : ascii := ascii_of_N 1.
Definition two : ascii := ascii_of_N 2.
Definition xff : ascii := ascii_of_N 255.

(** EM = 00 || 02 || PS || 00 || M *)
Definition pad_type2 (PS M : Buffer) : Buffer := zero :: two :: PS ++ zero :: M.

(** EM = 00 || 01 || ff ... ff || 00 || M, of length [k] *)
Definition pad_type1 (k : nat) (M : Buffer) : Buffer :=
  zero :: one :: repeat xff (k - 3 - List.length M) ++ zero :: M.

(** Reads the padding string up to its 00 separator: the number of padding
    octets and what follows the separator. *)
Fixpoint split_padding (ok : ascii -> bool) (seen : nat) (bs : Buffer)
  : Result (nat * Buffer) :=
  match bs with
  | [] => Throw (OpensslError "null before block missing")
  | b :: rest =>
      if is_zero_byte b then Ok (seen, rest)
      else if ok b then split_padding ok (S seen) rest
      else Throw (OpensslError "bad fixed header decrypt")
  end.

(** Removes the padding of the given block type: a leading zero octet, the
    type, at least eight padding octets, a zero octet. *)
Definition unpad (block_type : ascii) (ok : ascii -> bool) (wrong_type : string)
           (EM : Buffer) : Result Buffer :=
  match EM with
  | z :: t :: rest =>
      if negb (is_zero_byte z) then Throw (OpensslError "invalid padding")
      else if negb (Ascii.eqb t block_type) then Throw (OpensslError wrong_type)
      else match split_padding ok O rest with
           | Ok (n, M) =>
               if (n <? 8)%nat then Throw (OpensslError "bad pad byte count")
               else Ok M
           | Throw e => Throw e
           end
  | _ => Throw (OpensslError "data too small")
  end.

Definition unpad_type1 : Buffer -> Result Buffer :=
  unpad one (fun b => Ascii.eqb b xff) "block type is not 01".
Definition unpad_type2 : Buffer -> Result Buffer :=
  unpad two (fun _ => true) "block type is not 02".

(** The checks every operation makes on its input before the modular
    exponentiation. *)
Definition representative (key : Key) (C : Buffer) : Result Z :=
  if (size key <? List.length C)%nat
  then Throw (OpensslError "data greater than mod len")
  else if modulus key <=? OS2IP C
  then Throw (OpensslError "data too large for modulus")
  else Ok (OS2IP C).

Definition fits (key : Key) (M : Buffer) : bool :=
  (List.length M + 11 <=? size key)%nat.

(** RSAES-PKCS1-v1_5 encryption with the padding string [PS]. *)
Definition public_encrypt (key : Key) (PS M : Buffer) : Result Buffer :=
  if fits key M
  then Ok (I2OSP (size key) (RSAEP key (OS2IP (pad_type2 PS M))))
  else Throw (OpensslError "data too large for key size").

(** Its inverse: the private operation, then removal of block type 02. *)
Definition private_decrypt (key : Key) (C : Buffer) : Result Buffer :=
  match representative key C with
  | Throw e => Throw e
  | Ok c =>
      match RSADP key c with
      | Throw e => Throw e
      | Ok m => unpad_type2 (I2OSP (size key) m)
      end
  end.

(** Private-key encryption (signature with recovery), block type 01. *)
Definition private_encrypt (key : Key) (M : Buffer) : Result Buffer :=
  if fits key M
  then match RSADP key (OS2IP (pad_type1 (size key) M)) with
       | Ok s => Ok (I2OSP (size key) s)
       | Throw e => Throw e
       end
  else Throw (OpensslError "data too large for key size").

(** Its inverse: the public operation, then removal of block type 01. *)
Definition public_decrypt (key : Key) (C : Buffer) : Result Buffer :=
  match representative key C with
  | Throw e => Throw e
  | Ok c => unpad_type1 (I2OSP (size key) (RSAEP key c))
  end.

End Rsa.

(** ** The platform *)

(** A cipher object: what [createCipheriv] keeps of its arguments. *)
Record CipherCtx : Type := {
  ctx_algorithm : string;
  ctx_key : Buffer;
  ctx_iv : Buffer
}.

(** The operations the module takes from its platform.  The symmetric
    algorithm is named by the caller and resolved by OpenSSL, keys arrive as
    PEM text, and JSON is the engine's: each is a function here.
    [cipher_process ctx data] is the output of [update(data)] followed by
    that of [final()]; Node puts a [StringDecoder] between the cipher and
    the output encoding, so the two encoded pieces concatenate to the
    encoding of the two outputs concatenated. *)
Record Runtime : Type := {
  JSON_parse : string -> Result value;
  JSON_stringify : value -> value;
  ToString : value -> string;
  pem_read : value -> Result Rsa.Key;
  createCipheriv : string -> value -> value -> Result CipherCtx;
  cipher_process : CipherCtx -> Buffer -> Result Buffer;
  createDecipheriv : string -> value -> value -> Result CipherCtx;
  decipher_process : CipherCtx -> Buffer -> Result Buffer;
  utf8_replace : Buffer -> string;
  Buffer_from_object : value -> Result Buffer
}.

(** The Redis client: [get] resolves to the stored string or to null, or
    rejects. *)
Record Redis : Type := {
  redis_get : string -> Result (option string)
}.

(** ** State and exceptions *)

(** A call into the crypto module, with its arguments. *)
Inductive CryptoCall : Type :=
| CallRandomBytes (size : nat)
| CallPublicEncrypt (key : value) (data : Buffer)
| CallPublicDecrypt (key : value) (data : Buffer)
| CallCreateCipheriv (algorithm : string) (key iv : value)
| CallCreateDecipheriv (algorithm : string) (key iv : value).

(** The world a call runs in: the octets the entropy source will deliver,
    in order, and the calls made into the crypto module so far. *)
Record World : Type := {
  entropy : Buffer;
  calls : list CryptoCall
}.

Definition M (A : Type) : Type := World -> Result A * World.

Definition ret {A} (a : A) : M A := fun w => (Ok a, w).
Definition throw {A} (e : Thrown) : M A := fun w => (Throw e, w).
Definition lift {A} (r : Result A) : M A := fun w => (r, w).

Definition bind {A B} (m : M A) (k : A -> M B) : M B :=
  fun w =>
    match m w with
    | (Ok a, w') => k a w'
    | (Throw e, w') => (Throw e, w')
    end.

Notation "x <- m ;; k" := (bind m (fun x => k))
  (at level 61, m at next level, right associativity).

(** [try { body } catch (error) { handler }] *)
Definition try_catch {A} (body : M A) (handler : Thrown -> M A) : M A :=
  fun w =>
    match body w with
    | (Ok a, w') => (Ok a, w')
    | (Throw e, w') => handler e w'
    end.

(** Records a call into the crypto module. *)
Definition call (c : CryptoCall) : M unit :=
  fun w => (Ok tt, {| entropy := entropy w; calls := calls w ++ [c] |}).

(** The next [n] octets of the entropy source; the source can fail. *)
Definition draw (n : nat) : M Buffer :=
  fun w =>
    if (List.length (entropy w) <? n)%nat
    then (Throw (OpensslError "entropy source failed"), w)
    else (Ok (firstn n (entropy w)),
          {| entropy := skipn n (entropy w); calls := calls w |}).

(** [n] nonzero octets of the tape: a zero octet is drawn again. *)
Fixpoint nonzero_octets (tape : Buffer) (n : nat) : option (Buffer * Buffer) :=
  match n with
  | O => Some ([], tape)
  | S n' =>
      match tape with
      | [] => None
      | b :: tape' =>
          if is_zero_byte b then nonzero_octets tape' n
          else match nonzero_octets tape' n' with
               | Some (bs, rest) => Some (b :: bs, rest)
               | None => None
               end
      end
  end.

(** ** The gateway's functions *)

(** The promise built by [relay]: what its executor does, and what the
    callback handed to [client.callRequest] does with a reply. *)
Inductive Callback : Type :=
| CbResolve (v : value)
| CbReject (e : Thrown)
| CbThrow (e : Thrown).

Inductive Executor : Type :=
| ExecThrow (e : Thrown)
| ExecCall (url : string) (request : value) (callback : value -> Callback).

Inductive Promise : Type :=
| Pending
| Fulfilled (v : value)
| Rejected (e : Thrown).

(** The state of the promise once the backend's reply has been delivered.
    An error thrown by the executor rejects the promise; an error thrown
    inside the callback is outside the promise and leaves it pending. *)
Definition settle (x : Executor) (response : value) : Promise :=
  match x with
  | ExecThrow e => Rejected e
  | ExecCall _ _ callback =>
      match callback response with
      | CbResolve v => Fulfilled v
      | CbReject e => Rejected e
      | CbThrow _ => Pending
      end
  end.

(** The Express response: the status and the JSON body set on it, and
    whether [next] was called. *)
Record Response : Type := {
  statusCode : option Z;
  body : option value;
  next_called : bool
}.

Section Gateway.

Variable R : Runtime.

(** [JSON.parse(v)]: an argument that is not a string is converted to one. *)
Definition JSON_parse_value (v : value) : Result value :=
  match v with
  | VStr s => JSON_parse R s
  | _ => JSON_parse R (ToString R v)
  end.

(** [Buffer.from(v, encoding)]: a string is decoded; undefined, null, a
    boolean and a number are refused; arrays and objects go through the
    platform's conversion. *)
Definition Buffer_from (v : value) (decode : string -> Buffer) : Result Buffer :=
  match v with
  | VStr s => Ok (decode s)
  | VArr _ | VObj _ => Buffer_from_object R v
  | _ => Throw (TypeError "The first argument must be of type string or an instance of Buffer, ArrayBuffer, or Array or an Array-like Object.")
  end.

(** [buf.toString('utf8')]: well-formed octets are the string; the
    platform replaces what is ill-formed. *)
Definition toString_utf8 (b : Buffer) : string :=
  if Utf8.valid b then string_of_bytes b else utf8_replace R b.

(** The [data] argument of [update(data, 'utf8', ...)] and of
    [update(data, 'base64', ...)]: a string, decoded. *)
Definition update_input (v : value) (decode : string -> Buffer) : Result Buffer :=
  match v with
  | VStr s => Ok (decode s)
  | _ => Throw (TypeError "The data argument must be of type string or an instance of Buffer, TypedArray, or DataView.")
  end.

(** [crypto.randomBytes(n)] *)
Definition crypto_randomBytes (n : nat) : M Buffer :=
  _ <- call (CallRandomBytes n) ;;
  draw n.

(** [crypto.publicEncrypt({ key, padding: RSA_PKCS1_PADDING }, data)] *)
Definition crypto_publicEncrypt (key : value) (data : Buffer) : M Buffer :=
  _ <- call (CallPublicEncrypt key data) ;;
  k <- lift (pem_read R key) ;;
  if Rsa.fits k data
  then fun w =>
         match nonzero_octets (entropy w) (Rsa.size k - 3 - List.length data) with
         | Some (PS, rest) =>
             (Rsa.public_encrypt k PS data,
              {| entropy := rest; calls := calls w |})
         | None => (Throw (OpensslError "entropy source failed"), w)
         end
  else throw (OpensslError "data too large for key size").

(** [crypto.publicDecrypt({ key, padding: RSA_PKCS1_PADDING }, data)] *)
Definition crypto_publicDecrypt (key : value) (data : Buffer) : M Buffer :=
  _ <- call (CallPublicDecrypt key data) ;;
  k <- lift (pem_read R key) ;;
  lift (Rsa.public_decrypt k data).

(** export const relay = (url) => (operation) => new Promise(...) *)
Definition relay (url : string) (operation : value) : Executor :=
  let graphqlContext := get operation "context.graphqlContext" in
  let req := get graphqlContext "req" in
  match member req "headers" with
  | Throw e => ExecThrow e
  | Ok headers =>
  match member req "body" with
  | Throw e => ExecThrow e
  | Ok req_body =>
  match member req_body "query" with
  | Throw e => ExecThrow e
  | Ok query =>
      ExecCall url
        (VObj [("headers", JSON_stringify R headers); ("query", query)])
        (fun response =>
           let error := get response "error" in
           if truthy error then
             match JSON_parse_value error with
             | Throw e => CbThrow e
             | Ok parsedError =>
                 let extensions := get parsedError "extensions" in
                 let message := get parsedError "message" in
                 let locations := get parsedError "locations" in
                 CbReject (ParserError message extensions locations)
             end
           else
             let data := get response "data" in
             if negb (truthy data) then
               CbReject (ServiceError (VStr (url ++ " is not found")%string))
             else
               match JSON_parse_value data with
               | Throw e => CbThrow e
               | Ok parsed => CbResolve (VObj [("data", parsed)])
               end)
  end end end.

(** export const handleError = (err, _, res, next) => ...
    [err] is the error object, given by its properties. *)
Definition handleError (err : list (string * value)) (res : Response) : Response :=
  let message := prop (VObj err) "message" in
  let code := prop (VObj err) "code" in
  let rest :=
    filter (fun kv => negb (String.eqb (fst kv) "message" || String.eqb (fst kv) "code"))
           err in
  {| statusCode := Some 200;
     body := Some (VObj [("errors",
               VArr [VObj (("code", code) :: ("message", message) :: rest)])]);
     next_called := true |}.

(** export const encryptKey = (publicKey, symmetricKey) => ... *)
Definition encryptKey (publicKey symmetricKey : value) : M value :=
  plain <- lift (Buffer_from symmetricKey bytes_of_string) ;;
  encrypted <- crypto_publicEncrypt publicKey plain ;;
  ret (VStr (toString_base64 encrypted)).

(** export const decryptKey = (publicKey, encryptedKey) => ... *)
Definition decryptKey (publicKey encryptedKey : value) : M value :=
  wrapped <- lift (Buffer_from encryptedKey from_base64) ;;
  decrypted <- crypto_publicDecrypt publicKey wrapped ;;
  ret (VStr (toString_utf8 decrypted)).

(** export const encryptData = (data, symmetricKey, iv, algorithm) => ... *)
Definition encryptData (data symmetricKey iv : value) (algorithm : string)
  : M value :=
  _ <- call (CallCreateCipheriv algorithm symmetricKey iv) ;;
  cipher <- lift (createCipheriv R algorithm symmetricKey iv) ;;
  input <- lift (update_input data bytes_of_string) ;;
  encrypted <- lift (cipher_process R cipher input) ;;
  ret (VStr (toString_base64 encrypted)).

(** export const decryptData = (encryptedData, symmetricKey, iv, algorithm) => ... *)
Definition decryptData (encryptedData symmetricKey iv : value) (algorithm : string)
  : M value :=
  _ <- call (CallCreateDecipheriv algorithm symmetricKey iv) ;;
  decipher <- lift (createDecipheriv R algorithm symmetricKey iv) ;;
  input <- lift (update_input encryptedData from_base64) ;;
  decrypted <- lift (decipher_process R decipher input) ;;
  ret (VStr (toString_utf8 decrypted)).

(** const { a, b } = v: destructuring null or undefined throws. *)
Definition destructure (v : value) (a b : string) : Result (value * value) :=
  if nullish v
  then Throw (TypeError "Cannot destructure property of null or undefined")
  else Ok (prop v a, prop v b).

(** export const decryptRequest = (data, publicKey, algorithm) => ... *)
Definition decryptRequest (data publicKey : value) (algorithm : string) : M value :=
  fields <- lift (destructure data "encryptedData" "encryptedKey") ;;
  let '(encryptedData, encryptedKey) := fields in
  if negb (truthy encryptedData) || negb (truthy encryptedKey) then
    throw (AuthenticationError (VStr "encrypted data, encrypted key cannot null"))
  else
    try_catch
      (unwrapped <- decryptKey publicKey encryptedKey ;;
       parsed <- lift (JSON_parse_value unwrapped) ;;
       session <- lift (destructure parsed "key" "iv") ;;
       let '(key, iv) := session in
       decryptData encryptedData key iv algorithm)
      (fun error => throw (AuthenticationError (error_message error))).

(** export const encryptResponse = async (redis, responseData, apiKey,
    algorithm = config.apiKey.algorithmEncrypt) => ...
    The algorithm is the one in force after the default has applied; a
    thrown error is the rejection of the returned promise. *)
Definition encryptResponse (redis : Redis) (responseData : value)
           (apiKey : string) (algorithm : string) : M value :=
  stored <- lift (redis_get redis apiKey) ;;
  let apiKeyData := match stored with Some s => VStr s | None => VNull end in
  if negb (truthy apiKeyData) then
    throw (ResourceNotFound (VStr "Invalid api key"))
  else
    userData <- lift (JSON_parse_value apiKeyData) ;;
    let publicKey := get userData "account.publicKey" in
    random32 <- crypto_randomBytes 32 ;;
    let symmetricKey := slice0 32 (toString_hex random32) in
    random16 <- crypto_randomBytes 16 ;;
    let iv := slice0 16 (toString_hex random16) in
    encryptedData <-
      encryptData (JSON_stringify R responseData) (VStr symmetricKey) (VStr iv)
                  algorithm ;;
    encryptedKey <-
      encryptKey publicKey
        (JSON_stringify R (VObj [("key", VStr symmetricKey); ("iv", VStr iv)])) ;;
    ret (VObj [("encryptedData", encryptedData); ("encryptedKey", encryptedKey)]).

End Gateway.

(** ** getSchema *)

(** What follows the prefix [p] in [s], when [s] starts with [p]. *)
Fixpoint after_prefix (p s : list ascii) : option (list ascii) :=
  match p, s with
  | [], _ => Some s
  | a :: p', c :: s' => if Ascii.eqb a c then after_prefix p' s' else None
  | _ :: _, [] => None
  end.

Fixpoint replace_first (pattern replacement s : list ascii) : list ascii :=
  match after_prefix pattern s with
  | Some rest => replacement ++ rest
  | None =>
      match s with
      | [] => []
      | c :: s' => c :: replace_first pattern replacement s'
      end
  end.

(** [s.replace(pattern, replacement)] with a string for pattern: the first
    occurrence is replaced.  The replacement is taken as it is (the one
    used here is the empty string, which has no dollar pattern). *)
Definition String_replace (s pattern replacement : string) : string :=
  string_of_bytes
    (replace_first (bytes_of_string pattern) (bytes_of_string replacement)
                   (bytes_of_string s)).

(** The promise built by [getSchema]: it can be rejected with a value that
    is no error object (the error field of the reply, as received). *)
Inductive SchemaCallback : Type :=
| ScResolve (schema : string)
| ScRejectValue (reason : value)
| ScReject (e : Thrown)
| ScThrow (e : Thrown).

Inductive SchemaPromise : Type :=
| SchemaPending
| SchemaFulfilled (schema : string)
| SchemaRejectedValue (reason : value)
| SchemaRejected (e : Thrown).

(** The call the executor of [getSchema] makes: the endpoint, the request
    and the callback. *)
Record SchemaCall : Type := {
  schema_url : string;
  schema_request : value;
  schema_callback : value -> SchemaCallback
}.

(** The state of the promise once the reply has been delivered; an error
    thrown inside the callback leaves it pending. *)
Definition settle_schema (c : SchemaCall) (response : value) : SchemaPromise :=
  match schema_callback c response with
  | ScResolve schema => SchemaFulfilled schema
  | ScRejectValue reason => SchemaRejectedValue reason
  | ScReject e => SchemaRejected e
  | ScThrow _ => SchemaPending
  end.

Section Schema.

Variable R : Runtime.

(** export const getSchema = (url) => new Promise(...)
    The text is logged to the console before it is resolved; the console
    is not part of the model. *)
Definition getSchema (url : string) : SchemaCall :=
  {| schema_url := url;
     schema_request := VObj [("query", VStr "{ getSchema }")];
     schema_callback := fun response =>
       let error := get response "error" in
       if truthy error then ScRejectValue error
       else
         let data := get response "data" in
         if negb (truthy data) then
           ScReject (ServiceError (VStr (url ++ " is not found")%string))
         else
           match JSON_parse_value R data with
           | Throw e => ScThrow e
           | Ok parsed =>
               match member parsed "getSchema" with
               | Throw e => ScThrow e
               | Ok field =>
                   let parsedData := if truthy field then field else VStr "" in
                   match parsedData with
                   | VStr text => ScResolve (String_replace text "getSchema: String" "")
                   | _ => ScThrow (TypeError "parsedData.replace is not a function")
                   end
               end
           end |}.

End Schema.

(** ** A runtime to run the model on

    The theorems below hold for every [Runtime].  To evaluate the functions
    on concrete requests one is needed: this one has a JSON reader and
    writer for the values of the model, a textual key format standing for
    PEM (the modulus and the exponents in hexadecimal, separated by
    colons), and, standing for OpenSSL's block ciphers, a chained XOR with
    PKCS#7 padding that keeps their interface (key and iv lengths, a final
    block that can be rejected) and none of their strength. *)

Module Reference.

Definition dquote : ascii := ascii_of_N 34.
Definition backslash : ascii := ascii_of_N 92.

Definition chars (s : string) : list ascii := bytes_of_string s.

Fixpoint join (sep : list ascii) (parts : list (list ascii)) : list ascii :=
  match parts with
  | [] => []
  | [p] => p
  | p :: rest => p ++ sep ++ join sep rest
  end.

(** *** JSON.stringify *)

Definition hex_nibble (n : N) : ascii :=
  if (n <? 10)%N then ascii_of_N (48 + n) else ascii_of_N (87 + n).

Definition escape (c : ascii) : list ascii :=
  let n := N_of_ascii c in
  if (n =? 34)%N then [backslash; dquote]
  else if (n =? 92)%N then [backslash; backslash]
  else if (n =? 8)%N then backslash :: chars "b"
  else if (n =? 12)%N then backslash :: chars "f"
  else if (n =? 10)%N then backslash :: chars "n"
  else if (n =? 13)%N then backslash :: chars "r"
  else if (n =? 9)%N then backslash :: chars "t"
  else if (n <? 32)%N
  then backslash :: chars "u00" ++ [hex_nibble (n / 16); hex_nibble (n mod 16)]
  else [c].

Definition quote (s : string) : list ascii :=
  dquote :: flat_map escape (chars s) ++ [dquote].

Definition decimal (z : Z) : list ascii :=
  chars (NilZero.string_of_int (Z.to_int z)).

Fixpoint write (v : value) : option (list ascii) :=
  match v with
  | VUndefined => None
  | VNull => Some (chars "null")
  | VBool true => Some (chars "true")
  | VBool false => Some (chars "false")
  | VNum n => Some (decimal n)
  | VStr s => Some (quote s)
  | VArr items =>
      Some (chars "[" ++
            join (chars ",")
              (map (fun x => match write x with
                             | Some t => t
                             | None => chars "null"
                             end) items)
            ++ chars "]")
  | VObj props =>
      Some (chars "{" ++
            join (chars ",")
              ((fix members (ps : list (string * value)) : list (list ascii) :=
                  match ps with
                  | [] => []
                  | (k, x) :: rest =>
                      match write x with
                      | Some t => (quote k ++ chars ":" ++ t) :: members rest
                      | None => members rest
                      end
                  end) props)
            ++ chars "}")
  end.

Definition stringify (v : value) : value :=
  match write v with
  | Some t => VStr (string_of_bytes t)
  | None => VUndefined
  end.

(** *** JSON.parse *)

Definition is_ws (c : ascii) : bool :=
  let n := N_of_ascii c in ((n =? 32) || (n =? 9) || (n =? 10) || (n =? 13))%N.

Fixpoint skip_ws (cs : list ascii) : list ascii :=
  match cs with
  | c :: rest => if is_ws c then skip_ws rest else cs
  | [] => []
  end.

Definition hex_digit_value (c : ascii) : option N :=
  let n := N_of_ascii c in
  if ((48 <=? n) && (n <=? 57))%N then Some (n - 48)%N
  else if ((97 <=? n) && (n <=? 102))%N then Some (n - 87)%N
  else if ((65 <=? n) && (n <=? 70))%N then Some (n - 55)%N
  else None.

(** An escape sequence after its backslash: the octet it denotes and the
    rest of the input.  Only \u escapes below 0080 are read. *)
Definition unescape (cs : list ascii) : option (ascii * list ascii) :=
  match cs with
  | e :: rest =>
      let n := N_of_ascii e in
      if ((n =? 34) || (n =? 92) || (n =? 47))%N then Some (e, rest)
      else if (n =? 98)%N then Some (ascii_of_N 8, rest)
      else if (n =? 102)%N then Some (ascii_of_N 12, rest)
      else if (n =? 110)%N then Some (ascii_of_N 10, rest)
      else if (n =? 114)%N then Some (ascii_of_N 13, rest)
      else if (n =? 116)%N then Some (ascii_of_N 9, rest)
      else if (n =? 117)%N then
        match rest with
        | h1 :: h2 :: h3 :: h4 :: rest' =>
            match hex_digit_value h1, hex_digit_value h2,
                  hex_digit_value h3, hex_digit_value h4 with
            | Some 0%N, Some 0%N, Some a, Some b =>
                if (a <? 8)%N then Some (ascii_of_N (16 * a + b), rest') else None
            | _, _, _, _ => None
            end
        | _ => None
        end
      else None
  | [] => None
  end.

(** The body of a string literal, after its opening quote. *)
Fixpoint read_string (fuel : nat) (cs : list ascii) (acc : list ascii)
  : option (string * list ascii) :=
  match fuel with
  | O => None
  | S fuel' =>
      match cs with
      | [] => None
      | c :: rest =>
          if Ascii.eqb c dquote then Some (string_of_bytes (rev acc), rest)
          else if Ascii.eqb c backslash then
            match unescape rest with
            | Some (x, rest') => read_string fuel' rest' (x :: acc)
            | None => None
            end
          else if (N_of_ascii c <? 32)%N then None
          else read_string fuel' rest (c :: acc)
      end
  end.

Definition is_digit (c : ascii) : bool :=
  let n := N_of_ascii c in ((48 <=? n) && (n <=? 57))%N.

Fixpoint read_digits (cs : list ascii) (acc : Z) : Z * list ascii :=
  match cs with
  | c :: rest =>
      if is_digit c then read_digits rest (acc * 10 + (Z_of_byte c - 48))
      else (acc, cs)
  | [] => (acc, [])
  end.

(** An integer literal; a fraction or an exponent is not read. *)
Definition read_number (cs : list ascii) : option (value * list ascii) :=
  let '(neg, ds) :=
    match cs with
    | c :: rest => if Ascii.eqb c "-"%char then (true, rest) else (false, cs)
    | [] => (false, cs)
    end in
  match ds with
  | d :: _ =>
      if is_digit d then
        let '(n, rest) := read_digits ds 0 in
        match rest with
        | c :: _ =>
            if Ascii.eqb c "."%char || Ascii.eqb c "e"%char || Ascii.eqb c "E"%char
            then None
            else Some (VNum (if neg then - n else n), rest)
        | [] => Some (VNum (if neg then - n else n), rest)
        end
      else None
  | [] => None
  end.

Fixpoint strip_prefix (p cs : list ascii) : option (list ascii) :=
  match p, cs with
  | [], _ => Some cs
  | a :: p', c :: cs' => if Ascii.eqb a c then strip_prefix p' cs' else None
  | _ :: _, [] => None
  end.

(** A property read twice keeps its first place and its last value. *)
Fixpoint set_prop (k : string) (v : value) (props : list (string * value))
  : list (string * value) :=
  match props with
  | [] => [(k, v)]
  | (k', v') :: rest =>
      if String.eqb k k' then (k, v) :: rest else (k', v') :: set_prop k v rest
  end.

Fixpoint read_value (fuel : nat) (cs : list ascii) {struct fuel}
  : option (value * list ascii) :=
  match fuel with
  | O => None
  | S fuel' =>
      match skip_ws cs with
      | [] => None
      | c :: rest =>
          let n := N_of_ascii c in
          if (n =? 110)%N then
            option_map (fun r => (VNull, r)) (strip_prefix (chars "ull") rest)
          else if (n =? 116)%N then
            option_map (fun r => (VBool true, r)) (strip_prefix (chars "rue") rest)
          else if (n =? 102)%N then
            option_map (fun r => (VBool false, r)) (strip_prefix (chars "alse") rest)
          else if (n =? 34)%N then
            option_map (fun sr => (VStr (fst sr), snd sr))
                       (read_string (List.length rest) rest [])
          else if (n =? 91)%N then
            match skip_ws rest with
            | c' :: rest' =>
                if (N_of_ascii c' =? 93)%N then Some (VArr [], rest')
                else read_items fuel' rest []
            | [] => None
            end
          else if (n =? 123)%N then
            match skip_ws rest with
            | c' :: rest' =>
                if (N_of_ascii c' =? 125)%N then Some (VObj [], rest')
                else read_members fuel' rest []
            | [] => None
            end
          else read_number (c :: rest)
      end
  end
with read_items (fuel : nat) (cs : list ascii) (acc : list value) {struct fuel}
  : option (value * list ascii) :=
  match fuel with
  | O => None
  | S fuel' =>
      match read_value fuel' cs with
      | None => None
      | Some (v, rest) =>
          match skip_ws rest with
          | c :: rest' =>
              if (N_of_ascii c =? 44)%N then read_items fuel' rest' (v :: acc)
              else if (N_of_ascii c =? 93)%N then Some (VArr (rev (v :: acc)), rest')
              else None
          | [] => None
          end
      end
  end
with read_members (fuel : nat) (cs : list ascii) (acc : list (string * value))
     {struct fuel} : option (value * list ascii) :=
  match fuel with
  | O => None
  | S fuel' =>
      match skip_ws cs with
      | q :: rest =>
          if Ascii.eqb q dquote then
            match read_string (List.length rest) rest [] with
            | None => None
            | Some (k, rest1) =>
                match skip_ws rest1 with
                | colon :: rest2 =>
                    if (N_of_ascii colon =? 58)%N then
                      match read_value fuel' rest2 with
                      | None => None
                      | Some (v, rest3) =>
                          match skip_ws rest3 with
                          | c :: rest4 =>
                              if (N_of_ascii c =? 44)%N
                              then read_members fuel' rest4 (set_prop k v acc)
                              else if (N_of_ascii c =? 125)%N
                              then Some (VObj (set_prop k v acc), rest4)
                              else None
                          | [] => None
                          end
                      end
                    else None
                | [] => None
                end
            end
          else None
      | [] => None
      end
  end.

Definition parse (s : string) : Result value :=
  let cs := chars s in
  match read_value (2 * List.length cs + 2) cs with
  | Some (v, rest) =>
      match skip_ws rest with
      | [] => Ok v
      | _ => Throw (SyntaxError "Unexpected token in JSON")
      end
  | None => Throw (SyntaxError "Unexpected token in JSON")
  end.

(** *** String(v) *)

Fixpoint to_string (v : value) : list ascii :=
  match v with
  | VUndefined => chars "undefined"
  | VNull => chars "null"
  | VBool true => chars "true"
  | VBool false => chars "false"
  | VNum n => decimal n
  | VStr s => chars s
  | VArr items =>
      join (chars ",")
           (map (fun x => if nullish x then [] else to_string x) items)
  | VObj _ => chars "[object Object]"
  end.

(** *** Keys *)

Fixpoint read_hex (cs : list ascii) (acc : Z) : option Z :=
  match cs with
  | [] => Some acc
  | c :: rest =>
      match hex_digit_value c with
      | Some d => read_hex rest (acc * 16 + Z.of_N d)
      | None => None
      end
  end.

Definition hex_field (s : string) : option Z :=
  match chars s with
  | [] => None
  | cs => read_hex cs 0
  end.

Definition bad_key : Thrown := OpensslError "PEM routines: no start line".

Definition read_key (v : value) : Result Rsa.Key :=
  match v with
  | VStr s =>
      match map hex_field (split_at ":"%char (chars s) []) with
      | [Some n; Some e] =>
          Ok {| Rsa.modulus := n; Rsa.publicExponent := e;
                Rsa.privateExponent := None |}
      | [Some n; Some e; Some d] =>
          Ok {| Rsa.modulus := n; Rsa.publicExponent := e;
                Rsa.privateExponent := Some d |}
      | _ => Throw bad_key
      end
  | _ => Throw (TypeError "The key argument must be of type string")
  end.

(** *** The stand-in block cipher *)

Definition xor_byte (a b : ascii) : ascii :=
  let '(Ascii a0 a1 a2 a3 a4 a5 a6 a7) := a in
  let '(Ascii b0 b1 b2 b3 b4 b5 b6 b7) := b in
  Ascii (xorb a0 b0) (xorb a1 b1) (xorb a2 b2) (xorb a3 b3)
        (xorb a4 b4) (xorb a5 b5) (xorb a6 b6) (xorb a7 b7).

Fixpoint xor_block (a b : Buffer) : Buffer :=
  match a, b with
  | x :: a', y :: b' => xor_byte x y :: xor_block a' b'
  | _, _ => []
  end.

Definition key_length (algorithm : string) : option nat :=
  if String.eqb algorithm "aes-256-cbc" then Some 32%nat
  else if String.eqb algorithm "aes-128-cbc" then Some 16%nat
  else None.

Definition create (algorithm : string) (key iv : value) : Result CipherCtx :=
  match key_length algorithm with
  | None => Throw (OpensslError "Unknown cipher")
  | Some kl =>
      match key, iv with
      | VStr k, VStr i =>
          if negb (List.length (chars k) =? kl)%nat
          then Throw (OpensslError "Invalid key length")
          else if negb (List.length (chars i) =? 16)%nat
          then Throw (OpensslError "Invalid initialization vector")
          else Ok {| ctx_algorithm := algorithm; ctx_key := chars k; ctx_iv := chars i |}
      | _, _ => Throw (TypeError "The key argument must be of type string")
      end
  end.

(** PKCS#7: one to sixteen octets, each holding their number. *)
Definition pkcs7_pad (data : Buffer) : Buffer :=
  let n := (16 - List.length data mod 16)%nat in
  data ++ repeat (ascii_of_nat n) n.

Definition pkcs7_unpad (data : Buffer) : Result Buffer :=
  match rev data with
  | [] => Throw (OpensslError "wrong final block length")
  | last :: _ =>
      let n := nat_of_ascii last in
      if ((1 <=? n) && (n <=? 16) && (n <=? List.length data))%nat
         && forallb (Ascii.eqb last) (skipn (List.length data - n) data)
      then Ok (firstn (List.length data - n) data)
      else Throw (OpensslError "bad decrypt")
  end.

(** Chaining: each block is combined with the previous output block and
    with the key. *)
Fixpoint chain_encrypt (blocks : nat) (key prev data : Buffer) : Buffer :=
  match blocks with
  | O => []
  | S blocks' =>
      let c := xor_block (xor_block (firstn 16 data) prev) key in
      c ++ chain_encrypt blocks' key c (skipn 16 data)
  end.

Fixpoint chain_decrypt (blocks : nat) (key prev data : Buffer) : Buffer :=
  match blocks with
  | O => []
  | S blocks' =>
      let c := firstn 16 data in
      xor_block (xor_block c key) prev ++ chain_decrypt blocks' key c (skipn 16 data)
  end.

Definition encipher (ctx : CipherCtx) (data : Buffer) : Result Buffer :=
  let padded := pkcs7_pad data in
  Ok (chain_encrypt (List.length padded / 16) (ctx_key ctx) (ctx_iv ctx) padded).

Definition decipher (ctx : CipherCtx) (data : Buffer) : Result Buffer :=
  if negb (List.length data mod 16 =? 0)%nat
  then Throw (OpensslError "wrong final block length")
  else pkcs7_unpad
         (chain_decrypt (List.length data / 16) (ctx_key ctx) (ctx_iv ctx) data).

(** *** Conversions *)

(** Ill-formed octets: each octet outside ASCII becomes U+FFFD. *)
Definition replace_ill_formed (b : Buffer) : string :=
  string_of_bytes
    (flat_map (fun c => if (N_of_ascii c <? 128)%N then [c]
                        else [ascii_of_N 239; ascii_of_N 191; ascii_of_N 189]) b).

Definition from_object (v : value) : Result Buffer :=
  match v with
  | VArr items =>
      Ok (map (fun x => match x with VNum n => byte_of_Z n | _ => zero end) items)
  | _ => Throw (TypeError "The first argument must be of type string or an instance of Buffer, ArrayBuffer, or Array or an Array-like Object.")
  end.

Definition runtime : Runtime := {|
  JSON_parse := parse;
  JSON_stringify := stringify;
  ToString := fun v => string_of_bytes (to_string v);
  pem_read := read_key;
  createCipheriv := create;
  cipher_process := encipher;
  createDecipheriv := create;
  decipher_process := decipher;
  utf8_replace := replace_ill_formed;
  Buffer_from_object := from_object
|}.

End Reference.

(** ** Vocabulary of the statements *)

(** A failure inside the try block of [decryptRequest], by the step that
    fails: the unwrapping of the key, the parsing of the unwrapped session
    (the JSON text, then its destructuring), the symmetric decryption.  The
    error is the one the step throws and the world the one it leaves. *)
Inductive unwrap_failure (R : Runtime) (encryptedData encryptedKey publicKey : value)
          (algorithm : string) (w : World) : Thrown -> World -> Prop :=
| fail_key_unwrap e w' :
    decryptKey R publicKey encryptedKey w = (Throw e, w') ->
    unwrap_failure R encryptedData encryptedKey publicKey algorithm w e w'
| fail_json_parse unwrapped e w' :
    decryptKey R publicKey encryptedKey w = (Ok unwrapped, w') ->
    JSON_parse_value R unwrapped = Throw e ->
    unwrap_failure R encryptedData encryptedKey publicKey algorithm w e w'
| fail_session unwrapped parsed e w' :
    decryptKey R publicKey encryptedKey w = (Ok unwrapped, w') ->
    JSON_parse_value R unwrapped = Ok parsed ->
    destructure parsed "key" "iv" = Throw e ->
    unwrap_failure R encryptedData encryptedKey publicKey algorithm w e w'
| fail_decrypt unwrapped parsed w1 e w' :
    decryptKey R publicKey encryptedKey w = (Ok unwrapped, w1) ->
    JSON_parse_value R unwrapped = Ok parsed ->
    nullish parsed = false ->
    decryptData R encryptedData (prop parsed "key") (prop parsed "iv") algorithm w1
    = (Throw e, w') ->
    unwrap_failure R encryptedData encryptedKey publicKey algorithm w e w'.

(** The properties of the error object that the rest pattern of
    [handleError] collects: all but message and code. *)
Definition is_rest_key (k : string) : bool :=
  negb (String.eqb k "message" || String.eqb k "code").

(** The transport request an operation carries in its context, and whether
    it has what the relay reads before it issues its call: a request, and a
    body on it. *)
Definition request_of (operation : value) : value :=
  get (get operation "context.graphqlContext") "req".

Definition carries_request (operation : value) : bool :=
  negb (nullish (request_of operation))
  && negb (nullish (prop (request_of operation) "body")).

(** [priv] is a private key for the public key [pub]. *)
Definition key_pair (pub priv : Rsa.Key) : Prop :=
  0 < Rsa.modulus pub /\
  Rsa.modulus priv = Rsa.modulus pub /\
  Rsa.publicExponent priv = Rsa.publicExponent pub.

(** The private operation of [priv] undoes its public operation on the
    block [EM] (decryption after encryption). *)
Definition recovers (priv : Rsa.Key) (EM : Buffer) : Prop :=
  Rsa.RSADP priv (Rsa.RSAEP priv (Rsa.OS2IP EM)) = Ok (Rsa.OS2IP EM).

(** The public operation of [priv] undoes its private operation on the
    block [EM] (verification after signature). *)
Definition verifies (priv : Rsa.Key) (EM : Buffer) : Prop :=
  exists s, Rsa.RSADP priv (Rsa.OS2IP EM) = Ok s /\ Rsa.RSAEP priv s = Rsa.OS2IP EM.

(** Deciphering undoes enciphering for this algorithm, key, iv and
    plaintext. *)
Definition symmetric_inverse (R : Runtime) (algorithm : string) (key iv : value)
           (plaintext : Buffer) : Prop :=
  forall ctx ciphertext,
    createCipheriv R algorithm key iv = Ok ctx ->
    cipher_process R ctx plaintext = Ok ciphertext ->
    exists dctx,
      createDecipheriv R algorithm key iv = Ok dctx /\
      decipher_process R dctx ciphertext = Ok plaintext.

(** What a call of [encryptResponse] in the world [w] draws from the
    entropy source: 32 octets for the key, 16 for the iv, then the padding
    string of the RSA encryption. *)
Definition session_key (w : World) : string :=
  slice0 32 (toString_hex (firstn 32 (entropy w))).

Definition session_iv (w : World) : string :=
  slice0 16 (toString_hex (firstn 16 (skipn 32 (entropy w)))).

Definition session_blob (R : Runtime) (w : World) : value :=
  JSON_stringify R (VObj [("key", VStr (session_key w)); ("iv", VStr (session_iv w))]).

Definition padding_string (pub : Rsa.Key) (M : Buffer) (w : World) : Buffer :=
  match nonzero_octets (skipn 48 (entropy w)) (Rsa.size pub - 3 - List.length M) with
  | Some (PS, _) => PS
  | None => []
  end.

(** The public key of the account stored under an API key. *)
Definition account_key (R : Runtime) (redis : Redis) (apiKey : string)
  : Result Rsa.Key :=
  match redis_get redis apiKey with
  | Ok (Some stored) =>
      match JSON_parse R stored with
      | Ok userData => pem_read R (get userData "account.publicKey")
      | Throw e => Throw e
      end
  | Ok None => Throw (ResourceNotFound (VStr "Invalid api key"))
  | Throw e => Throw e
  end.

(** The world after one more call into the crypto module. *)
Definition logged (w : World) (c : CryptoCall) : World :=
  {| entropy := entropy w; calls := calls w ++ [c] |}.

(** The calls made between two worlds. *)
Definition new_calls (w w' : World) : list CryptoCall :=
  skipn (List.length (calls w)) (calls w').

(** The pattern occurs in [s] right after [pre]. *)
Definition occurs_after (pattern pre s : list ascii) : Prop :=
  exists post, s = pre ++ pattern ++ post.

(** ** Modular exponentiation on machine words

    [Zpow_mod] over [Z] is what the model is stated with; to run the
    private operation on a key of realistic size the same square-and-multiply
    is done on the integers of Bignums. *)

Module Fast.

Fixpoint pow_mod_pos (a : bigZ) (m : positive) (n : bigZ) : bigZ :=
  match m with
  | xH => BigZ.modulo a n
  | xO m' =>
      let z := pow_mod_pos a m' n in BigZ.modulo (BigZ.mul z z) n
  | xI m' =>
      let z := pow_mod_pos a m' n in
      BigZ.modulo (BigZ.mul (BigZ.mul z z) a) n
  end.

Definition pow_mod (a m n : Z) : Z :=
  match m with
  | 0 => 1 mod n
  | Zpos p => BigZ.to_Z (pow_mod_pos (BigZ.of_Z a) p (BigZ.of_Z n))
  | Zneg _ => 0
  end.

End Fast.

(** ** The scenario of the specification

    The store maps the API key k1 to an account whose public key is PEM1;
    the payload is {ok: true} and the algorithm aes-256-cbc.  The key pair
    is a 640-bit RSA key with public exponent 65537. *)

Module Scenario.

Definition R : Runtime := Reference.runtime.

Definition modulus_hex : string :=
  "a2cebd3c318b68c5cffeb754ce77fdb4528fea90c487fc89ea2491950c60e4a962fed0e77969d807095d4196ec2feeb25a46ae90ab931024432fca90a00ae8945922e3feef3199972f377cc620773e23".
Definition private_hex : string :=
  "cb59f1fff8756a20500cfbd38996864b7027885f739aa085cf56d41fff0480cab1aa188ded30c8a2f5d29b4c25c7ed2d279c8a0caee116267934b78a96a5d5a102fa84e78fd70dace54836756e63da1".

Definition PEM1 : value := VStr (modulus_hex ++ ":10001")%string.
Definition PRIV1 : value :=
  VStr (modulus_hex ++ ":10001:" ++ private_hex)%string.

Definition modulus1 : Z :=
  0xa2cebd3c318b68c5cffeb754ce77fdb4528fea90c487fc89ea2491950c60e4a962fed0e77969d807095d4196ec2feeb25a46ae90ab931024432fca90a00ae8945922e3feef3199972f377cc620773e23.
Definition exponent1 : Z :=
  0xcb59f1fff8756a20500cfbd38996864b7027885f739aa085cf56d41fff0480cab1aa188ded30c8a2f5d29b4c25c7ed2d279c8a0caee116267934b78a96a5d5a102fa84e78fd70dace54836756e63da1.

Definition pub1 : Rsa.Key :=
  {| Rsa.modulus := modulus1; Rsa.publicExponent := 65537;
     Rsa.privateExponent := None |}.
Definition priv1 : Rsa.Key :=
  {| Rsa.modulus := modulus1; Rsa.publicExponent := 65537;
     Rsa.privateExponent := Some exponent1 |}.

Definition text_of (v : value) : string :=
  match JSON_stringify R v with VStr s => s | _ => EmptyString end.

Definition record1 : string :=
  text_of (VObj [("account", VObj [("publicKey", PEM1)])]).

Definition store : Redis :=
  {| redis_get := fun apiKey =>
       if String.eqb apiKey "k1" then Ok (Some record1) else Ok None |}.

Definition payload : value := VObj [("ok", VBool true)].
Definition algorithm : string := "aes-256-cbc".

(** Octets for the entropy source. *)
Fixpoint noise (n seed : nat) : Buffer :=
  match n with
  | O => []
  | S n' =>
      let next := ((seed * 37 + 11) mod 256)%nat in
      ascii_of_nat next :: noise n' next
  end.

(** A source with what one call of encryptResponse draws (32 + 16 octets
    and the eleven of the padding), one that delivers the same octets a
    second time, and one that delivers other octets. *)
Definition w0 : World := {| entropy := noise 59 7; calls := [] |}.
Definition w_twice : World := {| entropy := noise 59 7 ++ noise 59 7; calls := [] |}.
Definition w_other : World := {| entropy := noise 59 99; calls := [] |}.

(** An operation as the relay receives it, and backend replies. *)
Definition operation : value :=
  VObj [("query", VStr "{ uploads }");
        ("context", VObj [("graphqlContext",
           VObj [("req", VObj [("headers", VObj [("host", VStr "gateway")]);
                               ("body", VObj [("query", VStr "{ uploads }")])])])])].

Definition backend_error : value :=
  VObj [("message", VStr "Cannot query field");
        ("extensions", VObj [("code", VStr "GRAPHQL_VALIDATION_FAILED")]);
        ("locations", VArr [VObj [("line", VNum 1); ("column", VNum 3)]])].

Definition error_reply : value := VObj [("error", VStr (text_of backend_error))].
Definition empty_reply : value := VObj [].

(** What encryptResponse returns for the payload in [w0] (and for the first
    and the second call in [w_twice]), and in [w_other]. *)
Definition sealed1 : value :=
  VObj [("encryptedData", VStr "KiJtayg6LXIkZSoFAwUDBQ==");
        ("encryptedKey",
         VStr "Fx0us9hONE1smpa/7N5jFAqE1NnTCbJzhFyea93qFrkWDNYc+NljexL0p8/SP3WOMgq02mY7kRm8YDz1lqO9WjkkEsDwMC72rj9RcpTt0Mk=")].

Definition sealed_other : value :=
  VObj [("encryptedData", VStr "KCJta386cnIgZXsFVAUHBQ==");
        ("encryptedKey",
         VStr "Pjh7tMLfnAx4nqTFXtPdUgSvnnfuI9XalF/HIs6JV9nRc7Q8ItSmcn/im/pJph/W0LRkhcw8NHfnYul4Y/KNLXpIrroG1nSptTZ98ls7oyg=")].

(** The sessions drawn in [w0] and in [w_other], and their serializations. *)
Definition key1 : string := "0e11808b22f574cff69928d38afd9c97".
Definition iv1 : string := "ae3120abc21514ef".
Definition blob1 : string := text_of (VObj [("key", VStr key1); ("iv", VStr iv1)]).

Definition key_other : string := "5a0dec27ae3120abc21514ef96b9c8f3".
Definition iv_other : string := "fa2d8c474e51c0cb".
Definition blob_other : string :=
  text_of (VObj [("key", VStr key_other); ("iv", VStr iv_other)]).

(** A blob to wrap, a source with enough octets for its padding, what
    encryptKey makes of it there with PEM1, and what private-key
    encryption makes of it with PRIV1. *)
Definition token : string := "0123456789abcdef".
Definition w_key : World := {| entropy := noise 80 7; calls := [] |}.

Definition wrapped_token : string :=
  "GFsc+RNz0lwb2Q/tZh+Dh2V9aTZzvtBxAkgeRYhWi4zcEDGvgf2pL6AexUarvEhAdVnnbOjYN5rnQNxZaMIrQklZBLEADlGn7qB4/ecBZY4=".

Definition signed_token : Buffer :=
  from_base64
    "dChXngLJPulPGS5Q5KKyMwjwGYy2Qkax86EaC4fM9RD9VHDCRjFH0eVukGAfgnTSaFacKNLGE2ViPrnMKX2BDrGluU/A6KONRalqQ7uvFT0=".

(** An envelope as a client holding PRIV1 makes it: the payload enciphered
    under the session (key1, iv1), and the serialized session signed with
    the private key. *)
Definition signed_session : Buffer :=
  from_base64
    "lOQETPUEF08crXUaf75dR6gK6CWHJWAsjIugtEdNLi7IOXEe1q79P1CSZCjOE725hdw8wKKoCUSIfPoaUjqiba2wIXT69orRHrRpinK7UE4=".

Definition enciphered_payload : Buffer := from_base64 "KiJtayg6LXIkZSoFAwUDBQ==".

Definition envelope1 : value :=
  VObj [("encryptedData", VStr (toString_base64 enciphered_payload));
        ("encryptedKey", VStr (toString_base64 signed_session))].

Definition data_reply : value :=
  VObj [("data", VStr (text_of (VObj [("uploads", VArr [])])))].

(** Replies to the schema request: a schema text that holds the wrapper
    token twice, a reply without the getSchema field, a reply whose data is
    no JSON, and a reply whose error field is plain text. *)
Definition schema_text : string :=
  "type Query { getSchema: String uploads: [File] getSchema: String }".

Definition schema_reply : value :=
  VObj [("data", VStr (text_of (VObj [("getSchema", VStr schema_text)])))].

Definition schema_reply_without_field : value :=
  VObj [("data", VStr (text_of (VObj [("other", VNum 1)])))].

Definition malformed_reply : value := VObj [("data", VStr "<html>")].

Definition plain_error_reply : value :=
  VObj [("error", VStr "14 UNAVAILABLE"); ("data", VStr "{}")].

Definition grpc_default_reply : value :=
  VObj [("error", VStr ""); ("data", VStr "")].

(** An operation whose context has no request. *)
Definition bare_operation : value := VObj [("query", VStr "{ uploads }")].

(** A store whose record for k3 is empty, whose record for k4 is no JSON,
    and whose record for k5 has no public key. *)
Definition odd_store : Redis :=
  {| redis_get := fun apiKey =>
       if String.eqb apiKey "k3" then Ok (Some EmptyString)
       else if String.eqb apiKey "k4" then Ok (Some "not json")
       else if String.eqb apiKey "k5"
            then Ok (Some (text_of (VObj [("account", VObj [])])))
            else Ok None |}.

(** A blob too long for the 80 octets of the modulus (72 characters). *)
Definition long_blob : string :=
  "0123456789abcdef0123456789abcdef0123456789abcdef0123456789abcdef01234567".

(** An error object as the translator receives it. *)
Definition parser_error : list (string * value) :=
  [("message", VStr "Cannot query field");
   ("code", VNum 400);
   ("extensions", VObj [("code", VStr "GRAPHQL_VALIDATION_FAILED")]);
   ("locations", VArr [VObj [("line", VNum 1); ("column", VNum 3)]])].

End Scenario.

(** * Properties *)

(** ** Running the monad *)

Lemma bind_ok {A B} (m : M A) (k : A -> M B) w a w' :
  m w = (Ok a, w') -> bind m k w = k a w'.
Proof. intros H. unfold bind. now rewrite H. Qed.

Lemma bind_throw {A B} (m : M A) (k : A -> M B) w e w' :
  m w = (Throw e, w') -> bind m k w = (Throw e, w').
Proof. intros H. unfold bind. now rewrite H. Qed.

Lemma bind_lift_ok {A B} (r : Result A) (k : A -> M B) w a :
  r = Ok a -> bind (lift r) k w = k a w.
Proof. intros ->. reflexivity. Qed.

Lemma bind_lift_throw {A B} (r : Result A) (k : A -> M B) w e :
  r = Throw e -> bind (lift r) k w = (Throw e, w).
Proof. intros ->. reflexivity. Qed.

Lemma try_catch_throw {A} (body : M A) handler w e w' :
  body w = (Throw e, w') -> try_catch body handler w = handler e w'.
Proof. intros H. unfold try_catch. now rewrite H. Qed.

Lemma try_catch_ok {A} (body : M A) handler w a w' :
  body w = (Ok a, w') -> try_catch body handler w = (Ok a, w').
Proof. intros H. unfold try_catch. now rewrite H. Qed.

(** ** decryptRequest: the field check *)

Lemma prop_of_destructure v a b :
  nullish v = false -> destructure v a b = Ok (prop v a, prop v b).
Proof. intros H. unfold destructure. now rewrite H. Qed.

(** A payload with a falsy field is refused before anything else runs. *)
Lemma decryptRequest_falsy_field R data publicKey algorithm w :
  nullish data = false ->
  truthy (prop data "encryptedData") = false \/
  truthy (prop data "encryptedKey") = false ->
  decryptRequest R data publicKey algorithm w
  = (Throw (AuthenticationError (VStr "encrypted data, encrypted key cannot null")), w).
Proof.
  intros Hdata Hfalsy. unfold decryptRequest.
  rewrite (bind_lift_ok _ _ _ _ (prop_of_destructure _ _ _ Hdata)).
  destruct Hfalsy as [H | H]; rewrite H; simpl.
  - reflexivity.
  - now rewrite orb_true_r.
Qed.

(** C4: for a payload in which encryptedData or encryptedKey is missing,
    decryptRequest throws an AuthenticationError, and the world is left as
    it was: no call into the crypto module was made and no entropy drawn. *)
Theorem decryptRequest_missing_field R data publicKey algorithm w :
  nullish data = false ->
  prop data "encryptedData" = VUndefined \/ prop data "encryptedKey" = VUndefined ->
  decryptRequest R data publicKey algorithm w
  = (Throw (AuthenticationError (VStr "encrypted data, encrypted key cannot null")), w).
Proof.
  intros Hdata Hmissing. apply decryptRequest_falsy_field; [assumption|].
  destruct Hmissing as [H | H]; rewrite H; auto.
Qed.

(** ** encryptResponse: the lookup *)

(** C5: for an API key with no record in the store, encryptResponse throws
    ResourceNotFound, and the world is left as it was: no random octets were
    drawn and no call into the crypto module was made. *)
Theorem encryptResponse_unknown_apiKey R redis responseData apiKey algorithm w :
  redis_get redis apiKey = Ok None ->
  encryptResponse R redis responseData apiKey algorithm w
  = (Throw (ResourceNotFound (VStr "Invalid api key")), w).
Proof.
  intros Hget. unfold encryptResponse.
  rewrite (bind_lift_ok _ _ _ _ Hget). reflexivity.
Qed.

(** ** relay *)

(** The executor issues the call when the operation carries a request with
    a body; the envelope holds the serialized headers and the query text. *)
Lemma relay_issues_call R url operation :
  carries_request operation = true ->
  exists callback,
    relay R url operation
    = ExecCall url
        (VObj [("headers", JSON_stringify R (prop (request_of operation) "headers"));
               ("query", prop (prop (request_of operation) "body") "query")])
        callback.
Proof.
  unfold carries_request, request_of. intros H.
  apply andb_true_iff in H as [Hreq Hbody]. apply negb_true_iff in Hreq, Hbody.
  unfold relay, member. rewrite Hreq, Hbody. eexists. reflexivity.
Qed.

(** Without one the executor throws and the promise is rejected before any
    call is made. *)
Lemma relay_without_request R url operation response :
  nullish (request_of operation) = true ->
  exists m, settle (relay R url operation) response = Rejected (TypeError m).
Proof.
  unfold request_of. intros H. unfold relay, member. rewrite H.
  eexists. reflexivity.
Qed.

(** What the reply does to the promise. *)
Lemma relay_settle R url operation response :
  carries_request operation = true ->
  settle (relay R url operation) response =
  if truthy (get response "error") then
    match JSON_parse_value R (get response "error") with
    | Throw e => Pending
    | Ok parsedError =>
        Rejected (ParserError (get parsedError "message")
                              (get parsedError "extensions")
                              (get parsedError "locations"))
    end
  else if negb (truthy (get response "data")) then
    Rejected (ServiceError (VStr (url ++ " is not found")%string))
  else
    match JSON_parse_value R (get response "data") with
    | Throw e => Pending
    | Ok parsed => Fulfilled (VObj [("data", parsed)])
    end.
Proof.
  unfold carries_request, request_of. intros H.
  apply andb_true_iff in H as [Hreq Hbody]. apply negb_true_iff in Hreq, Hbody.
  unfold relay, member. rewrite Hreq, Hbody. unfold settle.
  destruct (truthy (get response "error")).
  - now destruct (JSON_parse_value R (get response "error")).
  - destruct (negb (truthy (get response "data"))); [reflexivity|].
    now destruct (JSON_parse_value R (get response "data")).
Qed.

(** C6: when the relay has issued its call (the operation carries a
    request) and the reply has an error field holding JSON, the promise is
    rejected with a ParserError whose message, extensions and locations are
    the fields of the parsed error, as they are. *)
Theorem relay_error_reply R url operation response parsedError :
  carries_request operation = true ->
  truthy (get response "error") = true ->
  JSON_parse_value R (get response "error") = Ok parsedError ->
  settle (relay R url operation) response
  = Rejected (ParserError (get parsedError "message")
                          (get parsedError "extensions")
                          (get parsedError "locations")).
Proof.
  intros Hreq Herror Hparse.
  now rewrite (relay_settle _ _ _ _ Hreq), Herror, Hparse.
Qed.

Lemma relay_falsy_reply R url operation response :
  carries_request operation = true ->
  truthy (get response "error") = false ->
  truthy (get response "data") = false ->
  settle (relay R url operation) response
  = Rejected (ServiceError (VStr (url ++ " is not found")%string)).
Proof.
  intros Hreq Herror Hdata.
  now rewrite (relay_settle _ _ _ _ Hreq), Herror, Hdata.
Qed.

(** C7: when the relay has issued its call and the reply has neither a data
    nor an error field, the promise is rejected with a ServiceError whose
    message is the URL the relay was bound to, followed by " is not found". *)
Theorem relay_empty_reply R url operation response :
  carries_request operation = true ->
  get response "error" = VUndefined ->
  get response "data" = VUndefined ->
  settle (relay R url operation) response
  = Rejected (ServiceError (VStr (url ++ " is not found")%string)).
Proof.
  intros Hreq Herror Hdata.
  apply relay_falsy_reply; [assumption | rewrite Herror | rewrite Hdata]; reflexivity.
Qed.

(** ** handleError *)

Lemma keys_filter (f : string -> bool) (props : list (string * value)) :
  keys (filter (fun kv => f (fst kv)) props) = filter f (keys props).
Proof.
  induction props as [| [k v] props IH]; simpl; [reflexivity|].
  destruct (f k); simpl; now rewrite IH.
Qed.

Lemma lookup_filter (f : string -> bool) k (props : list (string * value)) :
  f k = true ->
  lookup k (filter (fun kv => f (fst kv)) props) = lookup k props.
Proof.
  intros Hk. induction props as [| [k' v] props IH]; simpl; [reflexivity|].
  destruct (String.eqb k k') eqn:E.
  - apply String.eqb_eq in E. subst k'. rewrite Hk. simpl.
    now rewrite String.eqb_refl.
  - destruct (f k'); simpl; [rewrite E|]; exact IH.
Qed.

Lemma lookup_in k (props : list (string * value)) :
  lookup k props <> None <-> In k (keys props).
Proof.
  induction props as [| [k' v] props IH]; simpl; [tauto|].
  destruct (String.eqb k k') eqn:E.
  - apply String.eqb_eq in E. subst. split; [auto | discriminate].
  - apply String.eqb_neq in E. rewrite IH. split; [auto | intros [H | H]; congruence].
Qed.

(** C8: the error translator sets status 200 and the body
    {errors: [e]}, where e holds code and message followed by every other
    property of the error: each property of the error is a property of e
    with the same value, and e has no property besides code, message and
    the error's own. *)
Theorem handleError_forwards_fields err res :
  exists e,
    statusCode (handleError err res) = Some 200 /\
    body (handleError err res) = Some (VObj [("errors", VArr [VObj e])]) /\
    keys e = "code" :: "message" :: filter is_rest_key (keys err) /\
    (forall k, In k (keys err) -> In k (keys e)) /\
    (forall k, prop (VObj e) k = prop (VObj err) k).
Proof.
  eexists. split; [reflexivity|]. split; [reflexivity|].
  split; [|split].
  - simpl. f_equal. f_equal. apply (keys_filter is_rest_key).
  - intros k Hk. simpl. rewrite (keys_filter is_rest_key).
    destruct (is_rest_key k) eqn:E.
    + right. right. apply filter_In. auto.
    + unfold is_rest_key in E. apply negb_false_iff, orb_true_iff in E.
      destruct E as [E | E]; apply String.eqb_eq in E; subst; auto.
  - intros k. simpl.
    destruct (String.eqb k "code") eqn:Ec.
    { apply String.eqb_eq in Ec. now subst. }
    destruct (String.eqb k "message") eqn:Em.
    { apply String.eqb_eq in Em. now subst. }
    rewrite (lookup_filter is_rest_key); [reflexivity|].
    unfold is_rest_key. now rewrite Ec, Em.
Qed.

(** ** decryptRequest: failures inside the try block *)

Lemma decryptRequest_checked R data publicKey algorithm w :
  nullish data = false ->
  truthy (prop data "encryptedData") = true ->
  truthy (prop data "encryptedKey") = true ->
  decryptRequest R data publicKey algorithm w
  = try_catch
      (unwrapped <- decryptKey R publicKey (prop data "encryptedKey") ;;
       parsed <- lift (JSON_parse_value R unwrapped) ;;
       session <- lift (destructure parsed "key" "iv") ;;
       let '(key, iv) := session in
       decryptData R (prop data "encryptedData") key iv algorithm)
      (fun error => throw (AuthenticationError (error_message error))) w.
Proof.
  intros Hdata Hd Hk. unfold decryptRequest.
  rewrite (bind_lift_ok _ _ _ _ (prop_of_destructure _ _ _ Hdata)).
  now rewrite Hd, Hk.
Qed.

(** C9: when both fields are present and a step of the try block fails
    (key unwrap, JSON parsing of the session, symmetric decryption),
    decryptRequest throws an AuthenticationError carrying the message of the
    error that step threw; it returns nothing. *)
Theorem decryptRequest_failure R data publicKey algorithm w e w' :
  nullish data = false ->
  truthy (prop data "encryptedData") = true ->
  truthy (prop data "encryptedKey") = true ->
  unwrap_failure R (prop data "encryptedData") (prop data "encryptedKey")
                 publicKey algorithm w e w' ->
  decryptRequest R data publicKey algorithm w
  = (Throw (AuthenticationError (error_message e)), w').
Proof.
  intros Hdata Hd Hk Hfail.
  rewrite (decryptRequest_checked _ _ _ _ _ Hdata Hd Hk).
  destruct Hfail as [e w' H | s e w' H Hp | s parsed e w' H Hp Hs
                    | s parsed w1 e w' H Hp Hn Hdec].
  - erewrite try_catch_throw; [reflexivity|].
    now apply bind_throw.
  - erewrite try_catch_throw; [reflexivity|].
    rewrite (bind_ok _ _ _ _ _ H). now apply bind_lift_throw.
  - erewrite try_catch_throw; [reflexivity|].
    rewrite (bind_ok _ _ _ _ _ H), (bind_lift_ok _ _ _ _ Hp).
    now apply bind_lift_throw.
  - erewrite try_catch_throw; [reflexivity|].
    rewrite (bind_ok _ _ _ _ _ H), (bind_lift_ok _ _ _ _ Hp).
    rewrite (bind_lift_ok _ _ _ _ (prop_of_destructure _ _ _ Hn)).
    exact Hdec.
Qed.

(** Conversely, what decryptRequest returns is what decryptData returned
    for the whole payload: the outcome is that plaintext or an
    AuthenticationError (or the TypeError of a null payload). *)
Lemma decryptRequest_outcome R data publicKey algorithm w r w' :
  nullish data = false ->
  decryptRequest R data publicKey algorithm w = (r, w') ->
  (exists m, r = Throw (AuthenticationError m)) \/
  (exists key iv w1 plaintext,
      decryptData R (prop data "encryptedData") key iv algorithm w1
      = (Ok plaintext, w') /\ r = Ok plaintext).
Proof.
  intros Hdata. unfold decryptRequest.
  rewrite (bind_lift_ok _ _ _ _ (prop_of_destructure _ _ _ Hdata)).
  destruct (negb _ || negb _).
  - intros H. injection H as <- <-. left. eauto.
  - unfold try_catch, bind at 1.
    destruct (decryptKey R publicKey _ w) as [[s | e] w1].
    2:{ intros H. injection H as <- <-. left. eauto. }
    unfold bind at 1, lift at 1.
    destruct (JSON_parse_value R s) as [parsed | e].
    2:{ intros H. injection H as <- <-. left. eauto. }
    unfold bind at 1, lift at 1.
    destruct (destructure parsed "key" "iv") as [[key iv] | e].
    2:{ intros H. injection H as <- <-. left. eauto. }
    destruct (decryptData R _ key iv algorithm w1) as [[plaintext | e] w2] eqn:E.
    + intros H. injection H as <- <-. right. eauto 10.
    + intros H. injection H as <- <-. left. eauto.
Qed.

(** ** Encodings *)

Lemma bytes_of_string_of_bytes b : bytes_of_string (string_of_bytes b) = b.
Proof. apply list_ascii_of_string_of_list_ascii. Qed.

Lemma string_of_bytes_of_string s : string_of_bytes (bytes_of_string s) = s.
Proof. apply string_of_list_ascii_of_string. Qed.

Lemma string_of_bytes_inj a b : string_of_bytes a = string_of_bytes b -> a = b.
Proof.
  intros H. rewrite <- (bytes_of_string_of_bytes a), H.
  apply bytes_of_string_of_bytes.
Qed.

Lemma length_string_of_bytes b : String.length (string_of_bytes b) = List.length b.
Proof. induction b; simpl; congruence. Qed.

(** Induction over a list three elements at a time. *)
Lemma list_ind3 {A} (P : list A -> Prop) :
  P [] -> (forall a, P [a]) -> (forall a b, P [a; b]) ->
  (forall a b c l, P l -> P (a :: b :: c :: l)) ->
  forall l, P l.
Proof.
  intros H0 H1 H2 H3. fix IH 1.
  intros [| a [| b [| c l]]];
    [exact H0 | exact (H1 a) | exact (H2 a b) | exact (H3 a b c l (IH l))].
Qed.

Module Base64Facts.
Import Base64.

(** A character of the alphabet is read back as the sextet it stands for. *)
Lemma sextets_char s cs : sextets (char s :: cs) = s :: sextets cs.
Proof.
  destruct s as [[[[[b5 b4] b3] b2] b1] b0].
  destruct b5, b4, b3, b2, b1, b0; reflexivity.
Qed.

Lemma sextets_pad cs : sextets (pad :: cs) = [].
Proof. reflexivity. Qed.

Lemma o1_q a b : o1 (q1 a) (q2 a b) = a.
Proof. destruct a, b. reflexivity. Qed.

Lemma o2_q a b c : o2 (q2 a b) (q3 b c) = b.
Proof. destruct a, b, c. reflexivity. Qed.

Lemma o3_q b c : o3 (q3 b c) (q4 c) = c.
Proof. destruct b, c. reflexivity. Qed.

Lemma decode_encode bs : decode (encode bs) = bs.
Proof.
  unfold decode. induction bs as [| a | a b | a b c l IH] using list_ind3.
  - reflexivity.
  - simpl encode. rewrite !sextets_char, sextets_pad. simpl. now rewrite o1_q.
  - simpl encode. rewrite !sextets_char, sextets_pad. simpl.
    now rewrite o1_q, o2_q.
  - simpl encode. rewrite !sextets_char. simpl octets.
    now rewrite o1_q, o2_q, o3_q, IH.
Qed.

End Base64Facts.

(** [Buffer.from(buf.toString('base64'), 'base64')] is [buf]. *)
Lemma from_base64_toString b : from_base64 (toString_base64 b) = b.
Proof.
  unfold from_base64, toString_base64.
  rewrite bytes_of_string_of_bytes. apply Base64Facts.decode_encode.
Qed.

Lemma toString_base64_inj a b : toString_base64 a = toString_base64 b -> a = b.
Proof.
  intros H. rewrite <- (from_base64_toString a), H. apply from_base64_toString.
Qed.

Module HexFacts.
Import Hex.

Lemma length_encode bs : List.length (encode bs) = (2 * List.length bs)%nat.
Proof. induction bs as [| [] bs IH]; simpl in *; lia. Qed.

Lemma firstn_encode n bs : firstn (2 * n) (encode bs) = encode (firstn n bs).
Proof.
  revert bs. induction n as [| n IH]; intros bs; [reflexivity|].
  destruct bs as [| [] bs]; [reflexivity|].
  replace (2 * S n)%nat with (S (S (2 * n))) by lia.
  simpl. now rewrite <- IH.
Qed.

Lemma digit_lower b3 b2 b1 b0 : is_lower_hex (digit b3 b2 b1 b0) = true.
Proof. destruct b3, b2, b1, b0; reflexivity. Qed.

Lemma encode_lower bs : forallb is_lower_hex (encode bs) = true.
Proof.
  induction bs as [| [] bs IH]; [reflexivity|].
  simpl. now rewrite !digit_lower, IH.
Qed.

End HexFacts.

(** The first 2n characters of the hexadecimal text of a buffer are the
    text of its first n octets. *)
Lemma slice0_toString_hex n b :
  slice0 (2 * n) (toString_hex b) = toString_hex (firstn n b).
Proof.
  unfold slice0, toString_hex.
  now rewrite bytes_of_string_of_bytes, HexFacts.firstn_encode.
Qed.

Lemma length_toString_hex b : String.length (toString_hex b) = (2 * List.length b)%nat.
Proof.
  unfold toString_hex. now rewrite length_string_of_bytes, HexFacts.length_encode.
Qed.

Lemma toString_hex_lower b :
  forallb Hex.is_lower_hex (bytes_of_string (toString_hex b)) = true.
Proof.
  unfold toString_hex. rewrite bytes_of_string_of_bytes. apply HexFacts.encode_lower.
Qed.

(** ** RSA: octet strings, padding, and the two inverse pairs *)

Module RsaFacts.
Import Rsa.

Lemma Z_of_byte_range b : 0 <= Z_of_byte b < 256.
Proof.
  unfold Z_of_byte. pose proof (N_ascii_bounded b). lia.
Qed.

Lemma byte_of_Z_shift x b : byte_of_Z (x * 256 + Z_of_byte b) = b.
Proof.
  unfold byte_of_Z. rewrite Z.add_comm, Z_mod_plus_full.
  rewrite Z.mod_small by apply Z_of_byte_range.
  unfold Z_of_byte. rewrite N2Z.id. apply ascii_N_embedding.
Qed.

Lemma Z_of_byte_of_Z x : Z_of_byte (byte_of_Z x) = x mod 256.
Proof.
  unfold Z_of_byte, byte_of_Z.
  pose proof (Z.mod_pos_bound x 256 ltac:(lia)) as Hb.
  rewrite N_ascii_embedding by lia. lia.
Qed.

Lemma OS2IP_from_app acc a b :
  OS2IP_from acc (a ++ b) = OS2IP_from (OS2IP_from acc a) b.
Proof. revert acc. induction a as [| x a IH]; intros acc; simpl; auto. Qed.

Lemma OS2IP_snoc bs b : OS2IP (bs ++ [b]) = OS2IP bs * 256 + Z_of_byte b.
Proof. unfold OS2IP. now rewrite OS2IP_from_app. Qed.

Lemma OS2IP_range bs : 0 <= OS2IP bs < 256 ^ Z.of_nat (List.length bs).
Proof.
  induction bs as [| b bs IH] using rev_ind.
  - simpl. unfold OS2IP. simpl. lia.
  - rewrite OS2IP_snoc, length_app. simpl List.length.
    replace (Z.of_nat (List.length bs + 1)) with (Z.of_nat (List.length bs) + 1) by lia.
    rewrite Z.pow_add_r by lia.
    pose proof (Z_of_byte_range b). lia.
Qed.

Lemma I2OSP_length k x : List.length (I2OSP k x) = k.
Proof.
  revert x. induction k as [| k IH]; intros x; simpl; [reflexivity|].
  rewrite length_app, IH. simpl. lia.
Qed.

Lemma I2OSP_OS2IP bs : I2OSP (List.length bs) (OS2IP bs) = bs.
Proof.
  induction bs as [| b bs IH] using rev_ind; [reflexivity|].
  rewrite length_app. simpl List.length.
  replace (List.length bs + 1)%nat with (S (List.length bs)) by lia.
  simpl I2OSP. rewrite OS2IP_snoc, byte_of_Z_shift.
  rewrite Z.div_add_l by lia.
  rewrite (Z.div_small (Z_of_byte b)) by apply Z_of_byte_range.
  now rewrite Z.add_0_r, IH.
Qed.

Lemma OS2IP_I2OSP k x : 0 <= x < 256 ^ Z.of_nat k -> OS2IP (I2OSP k x) = x.
Proof.
  revert x. induction k as [| k IH]; intros x Hx.
  - simpl in *. unfold OS2IP. simpl. lia.
  - simpl I2OSP. rewrite OS2IP_snoc, Z_of_byte_of_Z.
    rewrite IH.
    + pose proof (Z.div_mod x 256 ltac:(lia)). lia.
    + replace (Z.of_nat (S k)) with (Z.of_nat k + 1) in Hx by lia.
      rewrite Z.pow_add_r in Hx by lia.
      split; [apply Z.div_pos; lia|].
      apply Z.div_lt_upper_bound; lia.
Qed.

Lemma OS2IP_inj a b : List.length a = List.length b -> OS2IP a = OS2IP b -> a = b.
Proof.
  intros Hl H. rewrite <- (I2OSP_OS2IP a), <- (I2OSP_OS2IP b). congruence.
Qed.

Lemma I2OSP_inj k x y :
  0 <= x < 256 ^ Z.of_nat k -> 0 <= y < 256 ^ Z.of_nat k ->
  I2OSP k x = I2OSP k y -> x = y.
Proof.
  intros Hx Hy H. rewrite <- (OS2IP_I2OSP k x Hx), <- (OS2IP_I2OSP k y Hy).
  now rewrite H.
Qed.

(** The modulus fits in [size key] octets. *)
Lemma modulus_lt_size key :
  0 < modulus key -> modulus key < 256 ^ Z.of_nat (size key).
Proof.
  intros Hn. unfold size.
  pose proof (Z.log2_nonneg (modulus key)) as Hl.
  pose proof (Z.log2_spec _ Hn) as [_ Hs].
  pose proof (Z.div_pos (Z.log2 (modulus key)) 8 Hl ltac:(lia)) as Hq.
  rewrite Z2Nat.id by lia.
  change 256 with (2 ^ 8). rewrite <- Z.pow_mul_r by lia.
  eapply Z.lt_le_trans; [exact Hs|].
  apply Z.pow_le_mono_r; [lia|].
  pose proof (Z.div_mod (Z.log2 (modulus key)) 8 ltac:(lia)).
  pose proof (Z.mod_pos_bound (Z.log2 (modulus key)) 8 ltac:(lia)). lia.
Qed.

Lemma Zpow_mod_range a e n : 0 < n -> 0 <= Zpow_mod a e n < n.
Proof.
  intros Hn. rewrite Zpow_mod_correct by lia. now apply Z.mod_pos_bound.
Qed.

(** *** Padding *)

Lemma split_padding_app ok seen PS M :
  forallb (fun b => negb (is_zero_byte b) && ok b) PS = true ->
  split_padding ok seen (PS ++ zero :: M) = Ok ((seen + List.length PS)%nat, M).
Proof.
  revert seen. induction PS as [| b PS IH]; intros seen H; simpl.
  - now rewrite Nat.add_0_r.
  - simpl in H. apply andb_true_iff in H as [Hb HPS].
    apply andb_true_iff in Hb as [Hz Hok].
    apply negb_true_iff in Hz. rewrite Hz, Hok, IH by assumption.
    f_equal. f_equal. lia.
Qed.

Lemma unpad_type2_pad PS M :
  forallb (fun b => negb (is_zero_byte b)) PS = true ->
  (8 <= List.length PS)%nat ->
  unpad_type2 (pad_type2 PS M) = Ok M.
Proof.
  intros Hnz Hlen. unfold unpad_type2, unpad, pad_type2. simpl.
  rewrite split_padding_app.
  - simpl. destruct (Nat.ltb_spec (List.length PS) 8); [lia | reflexivity].
  - apply forallb_forall. intros b Hb.
    rewrite forallb_forall in Hnz. now rewrite (Hnz b Hb).
Qed.

Lemma unpad_type1_pad k M :
  (List.length M + 11 <= k)%nat ->
  unpad_type1 (pad_type1 k M) = Ok M.
Proof.
  intros Hlen. unfold unpad_type1, unpad, pad_type1. simpl.
  rewrite split_padding_app.
  - simpl. rewrite repeat_length.
    destruct (Nat.ltb_spec (k - 3 - List.length M) 8); [lia | reflexivity].
  - apply forallb_forall. intros b Hb. apply repeat_spec in Hb. now subst.
Qed.

Lemma pad_type1_length k M :
  (List.length M + 3 <= k)%nat -> List.length (pad_type1 k M) = k.
Proof.
  intros H. unfold pad_type1. simpl.
  rewrite length_app, repeat_length. simpl. lia.
Qed.

Lemma pad_type2_length PS M :
  List.length (pad_type2 PS M) = (List.length PS + List.length M + 3)%nat.
Proof. unfold pad_type2. simpl. rewrite length_app. simpl. lia. Qed.

Lemma app_inj_length {A} (a a' b b' : list A) :
  List.length a = List.length a' -> a ++ b = a' ++ b' -> a = a' /\ b = b'.
Proof.
  revert a'. induction a as [| x a IH]; intros [| x' a'] Hl H;
    simpl in *; try discriminate; [auto|].
  injection H as -> H. injection Hl as Hl.
  destruct (IH a' Hl H) as [-> ->]. auto.
Qed.

(** Two padded blocks are equal only if their padding strings and their
    messages are: the padding string ends at the first zero octet. *)
Lemma pad_type2_inj PS1 M1 PS2 M2 :
  forallb (fun b => negb (is_zero_byte b)) PS1 = true ->
  forallb (fun b => negb (is_zero_byte b)) PS2 = true ->
  pad_type2 PS1 M1 = pad_type2 PS2 M2 -> PS1 = PS2 /\ M1 = M2.
Proof.
  unfold pad_type2. intros H1 H2 H. injection H as H.
  assert (Hs : forall PS M,
             forallb (fun b => negb (is_zero_byte b)) PS = true ->
             split_padding (fun _ => true) O (PS ++ zero :: M)
             = Ok (List.length PS, M)).
  { intros PS M HPS. rewrite split_padding_app; [reflexivity|].
    apply forallb_forall. intros x Hx.
    rewrite forallb_forall in HPS. now rewrite (HPS x Hx). }
  pose proof (Hs PS1 M1 H1) as E1. rewrite H, (Hs PS2 M2 H2) in E1.
  injection E1 as Hlen HM. subst M2.
  apply app_inj_length in H as [HPS _]; auto.
Qed.

Lemma nonzero_octets_spec tape n PS rest :
  nonzero_octets tape n = Some (PS, rest) ->
  List.length PS = n /\ forallb (fun b => negb (is_zero_byte b)) PS = true.
Proof.
  revert n PS. induction tape as [| b tape IH]; intros [| n] PS; simpl;
    try discriminate; try (intros H; injection H as <- _; now auto).
  destruct (is_zero_byte b) eqn:Hb.
  - intros H. apply (IH (S n)). exact H.
  - destruct (nonzero_octets tape n) as [[bs r] |] eqn:E; [|discriminate].
    intros H. injection H as <- <-. destruct (IH _ _ E) as [Hl Hnz].
    simpl. now rewrite Hb, Hl, Hnz.
Qed.

End RsaFacts.

Module RsaPairs.
Import Rsa RsaFacts.

(** [crypto.publicDecrypt] opens what [crypto.privateEncrypt] made. *)
Lemma public_decrypt_private_encrypt pub priv M C :
  key_pair pub priv ->
  verifies priv (pad_type1 (size priv) M) ->
  private_encrypt priv M = Ok C ->
  public_decrypt pub C = Ok M.
Proof.
  intros (Hn & Hmod & Hexp) (s & Hs & Hv). unfold private_encrypt.
  destruct (fits priv M) eqn:Hfit; [|discriminate].
  rewrite Hs. intros H. injection H as <-.
  assert (Hsize : size pub = size priv) by (unfold size; now rewrite Hmod).
  assert (Hrange : 0 <= s < modulus pub).
  { unfold RSADP in Hs. destruct (privateExponent priv); [|discriminate].
    injection Hs as <-. rewrite Hmod. apply Zpow_mod_range. lia. }
  pose proof (modulus_lt_size pub Hn) as Hk.
  unfold public_decrypt, representative.
  rewrite I2OSP_length, Hsize, Nat.ltb_irrefl.
  rewrite OS2IP_I2OSP by (rewrite <- Hsize; lia).
  destruct (Z.leb_spec (modulus pub) s); [lia|].
  replace (RSAEP pub s) with (RSAEP priv s)
    by (unfold RSAEP; now rewrite Hmod, Hexp).
  unfold fits in Hfit. apply Nat.leb_le in Hfit.
  rewrite Hv.
  rewrite <- (pad_type1_length (size priv) M) at 1 by lia.
  rewrite I2OSP_OS2IP. apply unpad_type1_pad. lia.
Qed.

(** [crypto.privateDecrypt] opens what [crypto.publicEncrypt] made. *)
Lemma private_decrypt_public_encrypt pub priv PS M C :
  key_pair pub priv ->
  forallb (fun b => negb (is_zero_byte b)) PS = true ->
  List.length PS = (size pub - 3 - List.length M)%nat ->
  recovers priv (pad_type2 PS M) ->
  public_encrypt pub PS M = Ok C ->
  private_decrypt priv C = Ok M.
Proof.
  intros (Hn & Hmod & Hexp) Hnz Hlen Hrec. unfold public_encrypt.
  destruct (fits pub M) eqn:Hfit; [|discriminate].
  intros H. injection H as <-.
  assert (Hsize : size priv = size pub) by (unfold size; now rewrite Hmod).
  assert (Heq : RSAEP pub (OS2IP (pad_type2 PS M))
                = RSAEP priv (OS2IP (pad_type2 PS M)))
    by (unfold RSAEP; now rewrite Hmod, Hexp).
  assert (Hrange : 0 <= RSAEP pub (OS2IP (pad_type2 PS M)) < modulus pub)
    by (apply Zpow_mod_range; lia).
  pose proof (modulus_lt_size pub Hn) as Hk.
  unfold private_decrypt, representative.
  rewrite I2OSP_length, Hsize, Nat.ltb_irrefl.
  rewrite OS2IP_I2OSP by lia. rewrite Hmod.
  destruct (Z.leb_spec (modulus pub) (RSAEP pub (OS2IP (pad_type2 PS M)))); [lia|].
  rewrite Heq. unfold recovers in Hrec. rewrite Hrec.
  unfold fits in Hfit. apply Nat.leb_le in Hfit.
  assert (Hl : List.length (pad_type2 PS M) = size pub)
    by (rewrite pad_type2_length; lia).
  rewrite <- Hl, I2OSP_OS2IP.
  apply unpad_type2_pad; [assumption | lia].
Qed.

(** For a key whose private operation recovers two blocks, equal
    ciphertexts come from equal padding strings and equal messages. *)
Lemma public_encrypt_inj pub priv PS1 M1 PS2 M2 C :
  key_pair pub priv ->
  forallb (fun b => negb (is_zero_byte b)) PS1 = true ->
  forallb (fun b => negb (is_zero_byte b)) PS2 = true ->
  List.length PS1 = (size pub - 3 - List.length M1)%nat ->
  List.length PS2 = (size pub - 3 - List.length M2)%nat ->
  recovers priv (pad_type2 PS1 M1) ->
  recovers priv (pad_type2 PS2 M2) ->
  public_encrypt pub PS1 M1 = Ok C ->
  public_encrypt pub PS2 M2 = Ok C ->
  PS1 = PS2 /\ M1 = M2.
Proof.
  intros (Hn & Hmod & Hexp) Hz1 Hz2 Hl1 Hl2 Hr1 Hr2. unfold public_encrypt.
  destruct (fits pub M1) eqn:Hf1; [|discriminate].
  destruct (fits pub M2) eqn:Hf2; [|discriminate].
  unfold fits in Hf1, Hf2. apply Nat.leb_le in Hf1, Hf2.
  intros H1 H2. rewrite <- H2 in H1. injection H1 as H.
  pose proof (modulus_lt_size pub Hn) as Hk.
  pose proof (Zpow_mod_range (OS2IP (pad_type2 PS1 M1)) (publicExponent pub) _ Hn).
  pose proof (Zpow_mod_range (OS2IP (pad_type2 PS2 M2)) (publicExponent pub) _ Hn).
  apply I2OSP_inj in H; [| unfold RSAEP; lia | unfold RSAEP; lia].
  assert (Heq : forall x, RSAEP pub x = RSAEP priv x)
    by (intros x; unfold RSAEP; now rewrite Hmod, Hexp).
  unfold recovers in Hr1, Hr2. rewrite <- !Heq in Hr1, Hr2.
  rewrite H, Hr2 in Hr1. injection Hr1 as Hb.
  apply pad_type2_inj; [assumption | assumption |].
  apply OS2IP_inj; [|now symmetry].
  rewrite !pad_type2_length. lia.
Qed.

End RsaPairs.

(** ** The functions as equations on the world *)

Lemma Zpow_mod_fast a m n : Zpow_mod a m n = Fast.pow_mod a m n.
Proof.
  destruct m as [| p | p]; try reflexivity.
  unfold Zpow_mod, Fast.pow_mod.
  rewrite <- (BigZ.spec_of_Z a) at 1. rewrite <- (BigZ.spec_of_Z n) at 1.
  generalize (BigZ.of_Z a) (BigZ.of_Z n). intros x y.
  induction p as [p IH | p IH |]; simpl.
  - rewrite BigZ.spec_modulo, !BigZ.spec_mul, <- IH.
    now destruct (Zpow_mod_pos (BigZ.to_Z x) p (BigZ.to_Z y)).
  - rewrite BigZ.spec_modulo, !BigZ.spec_mul, <- IH.
    now destruct (Zpow_mod_pos (BigZ.to_Z x) p (BigZ.to_Z y)).
  - now rewrite BigZ.spec_modulo.
Qed.

Lemma toString_utf8_well_formed R s :
  well_formed s = true -> toString_utf8 R (bytes_of_string s) = s.
Proof.
  unfold well_formed, toString_utf8. intros ->. apply string_of_bytes_of_string.
Qed.

Lemma crypto_randomBytes_run n w :
  crypto_randomBytes n w
  = if (List.length (entropy w) <? n)%nat
    then (Throw (OpensslError "entropy source failed"), logged w (CallRandomBytes n))
    else (Ok (firstn n (entropy w)),
          {| entropy := skipn n (entropy w);
             calls := calls w ++ [CallRandomBytes n] |}).
Proof. reflexivity. Qed.

Lemma crypto_publicDecrypt_run R key data w :
  crypto_publicDecrypt R key data w
  = (match pem_read R key with
     | Ok k => Rsa.public_decrypt k data
     | Throw e => Throw e
     end, logged w (CallPublicDecrypt key data)).
Proof.
  unfold crypto_publicDecrypt, bind, call, lift, logged.
  now destruct (pem_read R key).
Qed.

Lemma crypto_publicEncrypt_run R key data w :
  crypto_publicEncrypt R key data w
  = match pem_read R key with
    | Throw e => (Throw e, logged w (CallPublicEncrypt key data))
    | Ok k =>
        if Rsa.fits k data then
          match nonzero_octets (entropy w) (Rsa.size k - 3 - List.length data) with
          | Some (PS, rest) =>
              (Rsa.public_encrypt k PS data,
               {| entropy := rest;
                  calls := calls w ++ [CallPublicEncrypt key data] |})
          | None => (Throw (OpensslError "entropy source failed"),
                     logged w (CallPublicEncrypt key data))
          end
        else (Throw (OpensslError "data too large for key size"),
              logged w (CallPublicEncrypt key data))
    end.
Proof.
  unfold crypto_publicEncrypt, bind, call, lift, logged, throw. simpl.
  destruct (pem_read R key) as [k | e]; [|reflexivity].
  destruct (Rsa.fits k data); reflexivity.
Qed.

Lemma decryptKey_run R publicKey encryptedKey w :
  decryptKey R publicKey encryptedKey w
  = match Buffer_from R encryptedKey from_base64 with
    | Throw e => (Throw e, w)
    | Ok wrapped =>
        (match pem_read R publicKey with
         | Ok k =>
             match Rsa.public_decrypt k wrapped with
             | Ok m => Ok (VStr (toString_utf8 R m))
             | Throw e => Throw e
             end
         | Throw e => Throw e
         end, logged w (CallPublicDecrypt publicKey wrapped))
    end.
Proof.
  unfold decryptKey. unfold bind at 1, lift at 1.
  destruct (Buffer_from R encryptedKey from_base64) as [wrapped | e]; [|reflexivity].
  unfold bind. rewrite crypto_publicDecrypt_run.
  destruct (pem_read R publicKey) as [k | e]; [|reflexivity].
  now destruct (Rsa.public_decrypt k wrapped).
Qed.

Lemma encryptKey_run R publicKey symmetricKey w :
  encryptKey R publicKey symmetricKey w
  = match Buffer_from R symmetricKey bytes_of_string with
    | Throw e => (Throw e, w)
    | Ok plain =>
        match crypto_publicEncrypt R publicKey plain w with
        | (Ok encrypted, w') => (Ok (VStr (toString_base64 encrypted)), w')
        | (Throw e, w') => (Throw e, w')
        end
    end.
Proof.
  unfold encryptKey. unfold bind at 1, lift at 1.
  destruct (Buffer_from R symmetricKey bytes_of_string) as [plain | e]; [|reflexivity].
  unfold bind.
  now destruct (crypto_publicEncrypt R publicKey plain w) as [[c | e] w'].
Qed.

Lemma encryptData_run R data symmetricKey iv algorithm w :
  encryptData R data symmetricKey iv algorithm w
  = (match createCipheriv R algorithm symmetricKey iv with
     | Throw e => Throw e
     | Ok cipher =>
         match update_input data bytes_of_string with
         | Throw e => Throw e
         | Ok input =>
             match cipher_process R cipher input with
             | Throw e => Throw e
             | Ok encrypted => Ok (VStr (toString_base64 encrypted))
             end
         end
     end, logged w (CallCreateCipheriv algorithm symmetricKey iv)).
Proof.
  unfold encryptData, bind, call, lift, logged, ret. simpl.
  destruct (createCipheriv R algorithm symmetricKey iv) as [cipher | e]; [|reflexivity].
  destruct (update_input data bytes_of_string) as [input | e]; [|reflexivity].
  now destruct (cipher_process R cipher input).
Qed.

Lemma decryptData_run R encryptedData symmetricKey iv algorithm w :
  decryptData R encryptedData symmetricKey iv algorithm w
  = (match createDecipheriv R algorithm symmetricKey iv with
     | Throw e => Throw e
     | Ok decipher =>
         match update_input encryptedData from_base64 with
         | Throw e => Throw e
         | Ok input =>
             match decipher_process R decipher input with
             | Throw e => Throw e
             | Ok decrypted => Ok (VStr (toString_utf8 R decrypted))
             end
         end
     end, logged w (CallCreateDecipheriv algorithm symmetricKey iv)).
Proof.
  unfold decryptData, bind, call, lift, logged, ret. simpl.
  destruct (createDecipheriv R algorithm symmetricKey iv) as [decipher | e]; [|reflexivity].
  destruct (update_input encryptedData from_base64) as [input | e]; [|reflexivity].
  now destruct (decipher_process R decipher input).
Qed.

(** ** decryptKey and encryptKey *)

Lemma decryptKey_inverts_signature R publicKey pub priv blob wrapped w :
  pem_read R publicKey = Ok pub ->
  key_pair pub priv ->
  well_formed blob = true ->
  verifies priv (Rsa.pad_type1 (Rsa.size priv) (bytes_of_string blob)) ->
  Rsa.private_encrypt priv (bytes_of_string blob) = Ok wrapped ->
  decryptKey R publicKey (VStr (toString_base64 wrapped)) w
  = (Ok (VStr blob), logged w (CallPublicDecrypt publicKey wrapped)).
Proof.
  intros Hpem Hpair Hwf Hver Henc.
  rewrite decryptKey_run. simpl Buffer_from.
  rewrite from_base64_toString, Hpem.
  rewrite (RsaPairs.public_decrypt_private_encrypt _ _ _ _ Hpair Hver Henc).
  now rewrite toString_utf8_well_formed.
Qed.

(** C2, as the code has it: decryptKey is the inverse of RSA private-key
    encryption, not of encryptKey.  For a key pair whose public operation
    undoes the private one on the padded blob, decryptKey with the public
    key, applied to the base64 text of what crypto.privateEncrypt made of a
    well-formed blob with the private key, returns the blob, after one call
    of crypto.publicDecrypt. *)
Theorem decryptKey_inverts_privateEncrypt R publicKey pub priv blob wrapped w :
  pem_read R publicKey = Ok pub ->
  key_pair pub priv ->
  well_formed blob = true ->
  verifies priv (Rsa.pad_type1 (Rsa.size priv) (bytes_of_string blob)) ->
  Rsa.private_encrypt priv (bytes_of_string blob) = Ok wrapped ->
  decryptKey R publicKey (VStr (toString_base64 wrapped)) w
  = (Ok (VStr blob), logged w (CallPublicDecrypt publicKey wrapped)) /\
  from_base64 (toString_base64 wrapped) = wrapped /\
  Rsa.public_decrypt pub wrapped = Ok (bytes_of_string blob).
Proof.
  intros Hpem Hpair Hwf Hver Henc. split; [|split].
  - now apply (decryptKey_inverts_signature R publicKey pub priv).
  - apply from_base64_toString.
  - exact (RsaPairs.public_decrypt_private_encrypt _ _ _ _ Hpair Hver Henc).
Qed.

(** ** encryptResponse *)

Lemma skipn_skipn_add {A} (a b : nat) (l : list A) :
  skipn a (skipn b l) = skipn (b + a) l.
Proof.
  revert l. induction b as [| b IH]; intros l; [reflexivity|].
  destruct l as [| x l]; simpl; [now rewrite skipn_nil | apply IH].
Qed.

Lemma new_calls_app w w' l : calls w' = calls w ++ l -> new_calls w w' = l.
Proof.
  intros H. unfold new_calls.
  now rewrite H, skipn_app, skipn_all, Nat.sub_diag.
Qed.

(** What a call that returns has computed on the way. *)
Lemma encryptResponse_ok R redis responseData apiKey algorithm w payload w' :
  encryptResponse R redis responseData apiKey algorithm w = (Ok payload, w') ->
  exists pub cipher input encrypted blob PS wrapped publicKey,
    account_key R redis apiKey = Ok pub /\
    (48 <= List.length (entropy w))%nat /\
    createCipheriv R algorithm (VStr (session_key w)) (VStr (session_iv w)) = Ok cipher /\
    update_input (JSON_stringify R responseData) bytes_of_string = Ok input /\
    cipher_process R cipher input = Ok encrypted /\
    Buffer_from R (session_blob R w) bytes_of_string = Ok blob /\
    nonzero_octets (skipn 48 (entropy w)) (Rsa.size pub - 3 - List.length blob)
    = Some (PS, entropy w') /\
    Rsa.public_encrypt pub PS blob = Ok wrapped /\
    payload = VObj [("encryptedData", VStr (toString_base64 encrypted));
                    ("encryptedKey", VStr (toString_base64 wrapped))] /\
    new_calls w w'
    = [CallRandomBytes 32; CallRandomBytes 16;
       CallCreateCipheriv algorithm (VStr (session_key w)) (VStr (session_iv w));
       CallPublicEncrypt publicKey blob].
Proof.
  unfold encryptResponse, account_key.
  unfold bind at 1, lift at 1.
  destruct (redis_get redis apiKey) as [[stored |] | e]; try discriminate.
  destruct (negb (truthy (VStr stored))); [discriminate|].
  unfold bind at 1, lift at 1. simpl JSON_parse_value.
  destruct (JSON_parse R stored) as [userData | e]; [|discriminate].
  unfold bind at 1. rewrite crypto_randomBytes_run.
  destruct (Nat.ltb_spec (List.length (entropy w)) 32) as [|H32]; [discriminate|].
  unfold bind at 1. rewrite crypto_randomBytes_run. cbn [entropy calls].
  destruct (Nat.ltb_spec (List.length (skipn 32 (entropy w))) 16) as [|H16];
    [discriminate|].
  rewrite length_skipn in H16.
  unfold bind at 1. rewrite encryptData_run. fold (session_key w) (session_iv w).
  destruct (createCipheriv R algorithm _ _) as [cipher | e]; [|discriminate].
  destruct (update_input _ _) as [input | e]; [|discriminate].
  destruct (cipher_process R cipher input) as [encrypted | e] eqn:Hproc;
    [|discriminate].
  unfold bind at 1. rewrite encryptKey_run. fold (session_blob R w).
  destruct (Buffer_from R (session_blob R w) bytes_of_string) as [blob | e];
    [|discriminate].
  rewrite crypto_publicEncrypt_run.
  destruct (pem_read R _) as [pub | e] eqn:Hpem; [|discriminate].
  destruct (Rsa.fits pub blob); [|discriminate].
  unfold logged. cbn [entropy calls]. rewrite skipn_skipn_add. cbn [Nat.add].
  destruct (nonzero_octets _ _) as [[PS rest] |] eqn:HPS; [|discriminate].
  destruct (Rsa.public_encrypt pub PS blob) as [wrapped | e] eqn:Henc;
    [|discriminate].
  unfold ret. intros H. injection H as <- <-. cbn [entropy].
  exists pub, cipher, input, encrypted, blob, PS, wrapped,
    (get userData "account.publicKey").
  repeat split; try assumption; try reflexivity; [lia|].
  apply new_calls_app. cbn [calls]. now rewrite <- !app_assoc.
Qed.

(** The calls a run of encryptResponse makes, whatever its outcome: the
    only cipher it creates is keyed by the session key and iv drawn from the
    first 48 octets of the entropy source. *)

Ltac no_cipher_call :=
  let H := fresh in
  let HIn := fresh in
  intros H HIn; injection H as <- <-;
  unfold new_calls, logged in HIn; cbn [calls entropy] in HIn;
  rewrite <- ?app_assoc in HIn;
  first [ rewrite skipn_all in HIn
        | rewrite skipn_app, skipn_all, Nat.sub_diag in HIn ];
  simpl in HIn;
  repeat (destruct HIn as [HIn | HIn]; try discriminate HIn);
  try contradiction.

Lemma encryptResponse_cipher_call R redis responseData apiKey algorithm w r w' a k i :
  encryptResponse R redis responseData apiKey algorithm w = (r, w') ->
  In (CallCreateCipheriv a k i) (new_calls w w') ->
  (48 <= List.length (entropy w))%nat /\
  a = algorithm /\ k = VStr (session_key w) /\ i = VStr (session_iv w).
Proof.
  unfold encryptResponse.
  unfold bind at 1, lift at 1.
  destruct (redis_get redis apiKey) as [stored | e]; [|no_cipher_call].
  destruct (negb (truthy _)); [unfold throw; no_cipher_call|].
  unfold bind at 1, lift at 1.
  destruct (JSON_parse_value R _) as [userData | e]; [|no_cipher_call].
  unfold bind at 1. rewrite crypto_randomBytes_run.
  destruct (Nat.ltb_spec (List.length (entropy w)) 32) as [|H32]; [no_cipher_call|].
  unfold bind at 1. rewrite crypto_randomBytes_run. cbn [entropy calls].
  destruct (Nat.ltb_spec (List.length (skipn 32 (entropy w))) 16) as [|H16];
    [no_cipher_call|].
  rewrite length_skipn in H16.
  unfold bind at 1. rewrite encryptData_run. fold (session_key w) (session_iv w).
  assert (Hgoal : forall l,
    In (CallCreateCipheriv a k i)
       ([CallRandomBytes 32; CallRandomBytes 16;
         CallCreateCipheriv algorithm (VStr (session_key w)) (VStr (session_iv w))] ++ l) ->
    (forall c, In c l -> match c with CallCreateCipheriv _ _ _ => False | _ => True end) ->
    (48 <= List.length (entropy w))%nat /\
    a = algorithm /\ k = VStr (session_key w) /\ i = VStr (session_iv w)).
  { intros l HIn Hl. simpl in HIn.
    destruct HIn as [HIn | [HIn | [HIn | HIn]]]; try discriminate.
    - injection HIn as <- <- <-. repeat split; lia.
    - exfalso. exact (Hl _ HIn). }
  match goal with
  | |- context [match ?c with Ok _ => _ | Throw _ => _ end] =>
      destruct c as [encryptedData | e]
  end.
  2:{ intros H HIn. injection H as <- <-. apply (Hgoal []); [|intros c []].
      unfold new_calls, logged in HIn. cbn [calls entropy] in HIn.
      rewrite <- ?app_assoc in HIn.
      rewrite skipn_app, skipn_all, Nat.sub_diag in HIn. exact HIn. }
  unfold bind at 1. rewrite encryptKey_run.
  assert (Hleaf : forall (x : Result value) en l,
    (l = [] \/ exists key data, l = [CallPublicEncrypt key data]) ->
    (x, {| entropy := en;
           calls := (((calls w ++ [CallRandomBytes 32]) ++ [CallRandomBytes 16])
                     ++ [CallCreateCipheriv algorithm (VStr (session_key w))
                                            (VStr (session_iv w))]) ++ l |})
    = (r, w') ->
    In (CallCreateCipheriv a k i) (new_calls w w') ->
    (48 <= List.length (entropy w))%nat /\
    a = algorithm /\ k = VStr (session_key w) /\ i = VStr (session_iv w)).
  { intros x en l Hl H HIn. injection H as <- <-. apply (Hgoal l).
    - unfold new_calls in HIn. cbn [calls] in HIn.
      rewrite <- ?app_assoc in HIn.
      rewrite skipn_app, skipn_all, Nat.sub_diag in HIn. exact HIn.
    - destruct Hl as [-> | (key & data & ->)]; [intros c [] | intros c [<- | []]; exact I]. }
  clear Hgoal. unfold logged. cbn [entropy calls].
  destruct (Buffer_from R _ bytes_of_string) as [plain | e].
  2:{ intros H.
      apply (Hleaf (Throw e) (skipn 16 (skipn 32 (entropy w))) []); [auto|].
      rewrite app_nil_r. exact H. }
  rewrite crypto_publicEncrypt_run. unfold logged, ret. cbn [entropy calls].
  destruct (pem_read R _) as [pub | e].
  2:{ apply Hleaf. right. eauto. }
  destruct (Rsa.fits pub plain).
  2:{ apply Hleaf. right. eauto. }
  destruct (nonzero_octets _ _) as [[PS rest] |].
  2:{ apply Hleaf. right. eauto. }
  destruct (Rsa.public_encrypt pub PS plain); apply Hleaf; right; eauto.
Qed.


(** C10: the key and the iv with which encryptResponse creates its cipher
    come from 32 and 16 octets of the entropy source: they are the first 32
    and the first 16 characters of the hexadecimal text of those octets,
    that is the text of their first 16 and first 8 octets: strings of 32 and
    16 characters among 0-9 and a-f, so that half of the octets drawn never
    reach the key. *)
Theorem session_key_iv_hex R redis responseData apiKey algorithm w r w' a k i :
  encryptResponse R redis responseData apiKey algorithm w = (r, w') ->
  In (CallCreateCipheriv a k i) (new_calls w w') ->
  let random32 := firstn 32 (entropy w) in
  let random16 := firstn 16 (skipn 32 (entropy w)) in
  List.length random32 = 32%nat /\ List.length random16 = 16%nat /\
  k = VStr (slice0 32 (toString_hex random32)) /\
  i = VStr (slice0 16 (toString_hex random16)) /\
  k = VStr (toString_hex (firstn 16 random32)) /\
  i = VStr (toString_hex (firstn 8 random16)) /\
  String.length (session_key w) = 32%nat /\
  String.length (session_iv w) = 16%nat /\
  forallb Hex.is_lower_hex (bytes_of_string (session_key w)) = true /\
  forallb Hex.is_lower_hex (bytes_of_string (session_iv w)) = true.
Proof.
  intros Hrun HIn random32 random16.
  destruct (encryptResponse_cipher_call _ _ _ _ _ _ _ _ _ _ _ Hrun HIn)
    as (Hlen & _ & -> & ->).
  assert (H32 : List.length random32 = 32%nat)
    by (unfold random32; rewrite length_firstn; lia).
  assert (H16 : List.length random16 = 16%nat)
    by (unfold random16; rewrite length_firstn, length_skipn; lia).
  assert (Hk : session_key w = toString_hex (firstn 16 random32))
    by (unfold session_key; apply (slice0_toString_hex 16)).
  assert (Hi : session_iv w = toString_hex (firstn 8 random16))
    by (unfold session_iv; apply (slice0_toString_hex 8)).
  repeat split; try assumption; try reflexivity; try (now f_equal).
  - rewrite Hk, length_toString_hex, length_firstn. lia.
  - rewrite Hi, length_toString_hex, length_firstn. lia.
  - rewrite Hk. apply toString_hex_lower.
  - rewrite Hi. apply toString_hex_lower.
Qed.

(** C1, as the code has it: the pair returned by encryptResponse is opened with
    the private key of the account by crypto.privateDecrypt, not by
    decryptRequest.  For a key pair whose private operation recovers the
    padded session, and a cipher whose decryption undoes its encryption
    for this session: the private decryption of encryptedKey is the
    serialized session {key, iv}, and decryptData applied to encryptedData
    with that key and iv returns the JSON serialization of the payload. *)
Theorem encryptResponse_opened_with_private_key
        R redis responseData apiKey algorithm w payload w' pub priv s blob :
  encryptResponse R redis responseData apiKey algorithm w = (Ok payload, w') ->
  JSON_stringify R responseData = VStr s ->
  well_formed s = true ->
  account_key R redis apiKey = Ok pub ->
  key_pair pub priv ->
  session_blob R w = VStr blob ->
  recovers priv (Rsa.pad_type2 (padding_string pub (bytes_of_string blob) w)
                               (bytes_of_string blob)) ->
  symmetric_inverse R algorithm (VStr (session_key w)) (VStr (session_iv w))
                    (bytes_of_string s) ->
  exists encryptedData encryptedKey,
    payload = VObj [("encryptedData", VStr encryptedData);
                    ("encryptedKey", VStr encryptedKey)] /\
    Rsa.private_decrypt priv (from_base64 encryptedKey) = Ok (bytes_of_string blob) /\
    decryptData R (VStr encryptedData) (VStr (session_key w)) (VStr (session_iv w))
                algorithm w'
    = (Ok (VStr s),
       logged w' (CallCreateDecipheriv algorithm (VStr (session_key w))
                                       (VStr (session_iv w)))).
Proof.
  intros Hrun Hjson Hwf Hacc Hpair Hblob Hrec Hsym.
  destruct (encryptResponse_ok _ _ _ _ _ _ _ _ Hrun)
    as (pub' & cipher & input & encrypted & blob' & PS & wrapped & publicKey
        & Hacc' & Hlen & Hcreate & Hinput & Hproc & Hbuf & HPS & Henc & -> & _).
  rewrite Hacc in Hacc'. injection Hacc' as <-.
  rewrite Hblob in Hbuf. simpl in Hbuf. injection Hbuf as <-.
  rewrite Hjson in Hinput. simpl in Hinput. injection Hinput as <-.
  unfold padding_string in Hrec. rewrite HPS in Hrec.
  destruct (RsaFacts.nonzero_octets_spec _ _ _ _ HPS) as [HlPS Hnz].
  exists (toString_base64 encrypted), (toString_base64 wrapped).
  split; [reflexivity|]. split.
  - rewrite from_base64_toString.
    exact (RsaPairs.private_decrypt_public_encrypt _ _ _ _ _ Hpair Hnz HlPS Hrec Henc).
  - destruct (Hsym _ _ Hcreate Hproc) as (dctx & Hd & Hp).
    rewrite decryptData_run, Hd. simpl update_input.
    rewrite from_base64_toString, Hp.
    now rewrite toString_utf8_well_formed.
Qed.

(** C3, as the code has it: what two calls with the same arguments return is
    decided by the octets the entropy source delivers.  When it delivers the
    same octets the two results are equal; when the serialized sessions or
    the padding strings drawn differ, and the private operation of the
    account's key pair recovers both padded sessions, the encryptedKey
    values differ. *)
Theorem encryptResponse_fresh_material
        R redis responseData apiKey algorithm w1 w2 p1 p2 w1' w2' pub priv blob1 blob2 :
  encryptResponse R redis responseData apiKey algorithm w1 = (Ok p1, w1') ->
  encryptResponse R redis responseData apiKey algorithm w2 = (Ok p2, w2') ->
  account_key R redis apiKey = Ok pub ->
  key_pair pub priv ->
  session_blob R w1 = VStr blob1 ->
  session_blob R w2 = VStr blob2 ->
  recovers priv (Rsa.pad_type2 (padding_string pub (bytes_of_string blob1) w1)
                               (bytes_of_string blob1)) ->
  recovers priv (Rsa.pad_type2 (padding_string pub (bytes_of_string blob2) w2)
                               (bytes_of_string blob2)) ->
  (entropy w1 = entropy w2 -> p1 = p2) /\
  (blob1 <> blob2 \/
   padding_string pub (bytes_of_string blob1) w1
   <> padding_string pub (bytes_of_string blob2) w2 ->
   prop p1 "encryptedKey" <> prop p2 "encryptedKey").
Proof.
  intros Hrun1 Hrun2 Hacc Hpair Hb1 Hb2 Hrec1 Hrec2.
  destruct (encryptResponse_ok _ _ _ _ _ _ _ _ Hrun1)
    as (pub1 & cipher1 & input1 & enc1 & blob1' & PS1 & wrapped1 & pk1
        & Hacc1 & _ & Hc1 & Hi1 & Hp1 & Hbuf1 & HPS1 & Henc1 & -> & _).
  destruct (encryptResponse_ok _ _ _ _ _ _ _ _ Hrun2)
    as (pub2 & cipher2 & input2 & enc2 & blob2' & PS2 & wrapped2 & pk2
        & Hacc2 & _ & Hc2 & Hi2 & Hp2 & Hbuf2 & HPS2 & Henc2 & -> & _).
  rewrite Hacc in Hacc1, Hacc2. injection Hacc1 as <-. injection Hacc2 as <-.
  rewrite Hb1 in Hbuf1. rewrite Hb2 in Hbuf2. simpl in Hbuf1, Hbuf2.
  injection Hbuf1 as <-. injection Hbuf2 as <-.
  unfold padding_string in *. rewrite HPS1 in *. rewrite HPS2 in *.
  split.
  - intros Hent.
    assert (Hk : session_key w1 = session_key w2)
      by (unfold session_key; now rewrite Hent).
    assert (Hv : session_iv w1 = session_iv w2)
      by (unfold session_iv; now rewrite Hent).
    assert (Hb : blob1 = blob2).
    { unfold session_blob in Hb1, Hb2. rewrite Hk, Hv, Hb2 in Hb1. congruence. }
    subst blob2. rewrite Hk, Hv, Hc2 in Hc1. injection Hc1 as <-.
    rewrite Hi2 in Hi1. injection Hi1 as <-.
    rewrite Hp2 in Hp1. injection Hp1 as <-.
    rewrite Hent, HPS2 in HPS1. injection HPS1 as <- _.
    rewrite Henc2 in Henc1. injection Henc1 as <-. reflexivity.
  - intros Hdiff Heq. simpl in Heq. injection Heq as Heq.
    apply toString_base64_inj in Heq. subst wrapped2.
    destruct (RsaFacts.nonzero_octets_spec _ _ _ _ HPS1) as [Hl1 Hz1].
    destruct (RsaFacts.nonzero_octets_spec _ _ _ _ HPS2) as [Hl2 Hz2].
    destruct (RsaPairs.public_encrypt_inj _ _ _ _ _ _ _ Hpair Hz1 Hz2 Hl1 Hl2
                Hrec1 Hrec2 Henc1 Henc2) as [HPS HM].
    destruct Hdiff as [Hd | Hd]; [|now apply Hd].
    apply Hd. rewrite <- (string_of_bytes_of_string blob1),
                      <- (string_of_bytes_of_string blob2).
    now f_equal.
Qed.

(** * The scenario, run *)

(** ** The private operation, computed on machine words *)

Lemma private_encrypt_fast key M d :
  Rsa.privateExponent key = Some d ->
  Rsa.private_encrypt key M
  = if Rsa.fits key M
    then Ok (Rsa.I2OSP (Rsa.size key)
               (Fast.pow_mod (Rsa.OS2IP (Rsa.pad_type1 (Rsa.size key) M)) d
                             (Rsa.modulus key)))
    else Throw (OpensslError "data too large for key size").
Proof.
  intros Hd. unfold Rsa.private_encrypt, Rsa.RSADP.
  now rewrite Hd, Zpow_mod_fast.
Qed.

Lemma recovers_fast key EM d :
  Rsa.privateExponent key = Some d ->
  Fast.pow_mod (Rsa.RSAEP key (Rsa.OS2IP EM)) d (Rsa.modulus key) = Rsa.OS2IP EM ->
  recovers key EM.
Proof.
  intros Hd H. unfold recovers, Rsa.RSADP.
  now rewrite Hd, Zpow_mod_fast, H.
Qed.

Lemma verifies_fast key EM d :
  Rsa.privateExponent key = Some d ->
  Rsa.RSAEP key (Fast.pow_mod (Rsa.OS2IP EM) d (Rsa.modulus key)) = Rsa.OS2IP EM ->
  verifies key EM.
Proof.
  intros Hd H. unfold verifies, Rsa.RSADP. rewrite Hd.
  eexists. split; [reflexivity|]. now rewrite Zpow_mod_fast.
Qed.

Module Run.
Import Scenario.

Lemma key_pair1 : key_pair pub1 priv1.
Proof. unfold key_pair. repeat split. Qed.

Lemma account_key1 : account_key R store "k1" = Ok pub1.
Proof. vm_compute. reflexivity. Qed.

Lemma sealed_in_w0 :
  encryptResponse R store payload "k1" algorithm w0
  = (Ok sealed1,
     {| entropy := [];
        calls := [CallRandomBytes 32; CallRandomBytes 16;
                  CallCreateCipheriv algorithm (VStr key1) (VStr iv1);
                  CallPublicEncrypt PEM1 (bytes_of_string blob1)] |}).
Proof. vm_compute. reflexivity. Qed.

Lemma sealed_in_w_other :
  fst (encryptResponse R store payload "k1" algorithm w_other) = Ok sealed_other.
Proof. vm_compute. reflexivity. Qed.

Lemma recovers1 :
  recovers priv1 (Rsa.pad_type2 (padding_string pub1 (bytes_of_string blob1) w0)
                                (bytes_of_string blob1)).
Proof. apply (recovers_fast priv1 _ exponent1 eq_refl). vm_compute. reflexivity. Qed.

Lemma recovers_other :
  recovers priv1
    (Rsa.pad_type2 (padding_string pub1 (bytes_of_string blob_other) w_other)
                   (bytes_of_string blob_other)).
Proof. apply (recovers_fast priv1 _ exponent1 eq_refl). vm_compute. reflexivity. Qed.

Lemma symmetric_inverse1 :
  symmetric_inverse R algorithm (VStr (session_key w0)) (VStr (session_iv w0))
                    (bytes_of_string (text_of payload)).
Proof.
  intros ctx ciphertext Hc Hp.
  vm_compute in Hc. injection Hc as <-.
  vm_compute in Hp. injection Hp as <-.
  eexists. split; vm_compute; reflexivity.
Qed.

End Run.

(** C1, counterexample: in the scenario of the specification,
    encryptResponse returns a pair, and decryptRequest applied to that pair
    with the matching private key throws: crypto.publicDecrypt applies the
    public exponent to what crypto.publicEncrypt made with the same
    exponent, and what comes out is no padded block. *)
Lemma decryptRequest_of_encryptResponse_counterexample :
  fst (encryptResponse Scenario.R Scenario.store Scenario.payload "k1"
                       Scenario.algorithm Scenario.w0)
  = Ok Scenario.sealed1 /\
  fst (decryptRequest Scenario.R Scenario.sealed1 Scenario.PRIV1 Scenario.algorithm
         (snd (encryptResponse Scenario.R Scenario.store Scenario.payload "k1"
                               Scenario.algorithm Scenario.w0)))
  = Throw (AuthenticationError (VStr "invalid padding")).
Proof. split; vm_compute; reflexivity. Qed.

(** C1, witness: the scenario of the specification. *)
Lemma encryptResponse_opened_witness :
  exists encryptedData encryptedKey,
    Scenario.sealed1 = VObj [("encryptedData", VStr encryptedData);
                             ("encryptedKey", VStr encryptedKey)] /\
    Rsa.private_decrypt Scenario.priv1 (from_base64 encryptedKey)
    = Ok (bytes_of_string Scenario.blob1) /\
    decryptData Scenario.R (VStr encryptedData)
                (VStr (session_key Scenario.w0)) (VStr (session_iv Scenario.w0))
                Scenario.algorithm
                {| entropy := [];
                   calls := [CallRandomBytes 32; CallRandomBytes 16;
                             CallCreateCipheriv Scenario.algorithm
                               (VStr Scenario.key1) (VStr Scenario.iv1);
                             CallPublicEncrypt Scenario.PEM1
                               (bytes_of_string Scenario.blob1)] |}
    = (Ok (VStr (Scenario.text_of Scenario.payload)),
       logged {| entropy := [];
                 calls := [CallRandomBytes 32; CallRandomBytes 16;
                           CallCreateCipheriv Scenario.algorithm
                             (VStr Scenario.key1) (VStr Scenario.iv1);
                           CallPublicEncrypt Scenario.PEM1
                             (bytes_of_string Scenario.blob1)] |}
              (CallCreateDecipheriv Scenario.algorithm
                 (VStr (session_key Scenario.w0)) (VStr (session_iv Scenario.w0)))).
Proof.
  apply (encryptResponse_opened_with_private_key
           Scenario.R Scenario.store Scenario.payload "k1" Scenario.algorithm
           Scenario.w0 Scenario.sealed1 _ Scenario.pub1 Scenario.priv1
           (Scenario.text_of Scenario.payload) Scenario.blob1).
  - exact Run.sealed_in_w0.
  - vm_compute. reflexivity.
  - vm_compute. reflexivity.
  - exact Run.account_key1.
  - exact Run.key_pair1.
  - vm_compute. reflexivity.
  - exact Run.recovers1.
  - exact Run.symmetric_inverse1.
Defined.

(** C2, counterexample: encryptKey wraps a blob under PEM1, and decryptKey
    with the matching private key does not return it: it throws. *)
Lemma decryptKey_of_encryptKey_counterexample :
  fst (encryptKey Scenario.R Scenario.PEM1 (VStr Scenario.token) Scenario.w_key)
  = Ok (VStr Scenario.wrapped_token) /\
  fst (decryptKey Scenario.R Scenario.PRIV1 (VStr Scenario.wrapped_token)
         (snd (encryptKey Scenario.R Scenario.PEM1 (VStr Scenario.token)
                          Scenario.w_key)))
  = Throw (OpensslError "invalid padding").
Proof. split; vm_compute; reflexivity. Qed.

(** C2, witness: the blob signed with PRIV1 and read back with PEM1. *)
Lemma decryptKey_inverts_privateEncrypt_witness :
  decryptKey Scenario.R Scenario.PEM1
             (VStr (toString_base64 Scenario.signed_token)) Scenario.w_key
  = (Ok (VStr Scenario.token),
     logged Scenario.w_key
            (CallPublicDecrypt Scenario.PEM1 Scenario.signed_token)).
Proof.
  refine (proj1 (decryptKey_inverts_privateEncrypt
           Scenario.R Scenario.PEM1 Scenario.pub1 Scenario.priv1
           Scenario.token Scenario.signed_token Scenario.w_key _ _ _ _ _)).
  - vm_compute. reflexivity.
  - exact Run.key_pair1.
  - vm_compute. reflexivity.
  - apply (verifies_fast Scenario.priv1 _ Scenario.exponent1 eq_refl).
    vm_compute. reflexivity.
  - rewrite (private_encrypt_fast Scenario.priv1 _ Scenario.exponent1 eq_refl).
    vm_compute. reflexivity.
Defined.

(** C3, counterexample: an entropy source that delivers the same 59 octets
    twice; two successive calls with the same arguments return the same
    encryptedData and the same encryptedKey. *)
Lemma encryptResponse_repeats_counterexample :
  fst (encryptResponse Scenario.R Scenario.store Scenario.payload "k1"
                       Scenario.algorithm Scenario.w_twice)
  = Ok Scenario.sealed1 /\
  fst (encryptResponse Scenario.R Scenario.store Scenario.payload "k1"
         Scenario.algorithm
         (snd (encryptResponse Scenario.R Scenario.store Scenario.payload "k1"
                               Scenario.algorithm Scenario.w_twice)))
  = Ok Scenario.sealed1.
Proof. split; vm_compute; reflexivity. Qed.

(** C3, witness: two sources that deliver different octets. *)
Lemma encryptResponse_fresh_material_witness :
  prop Scenario.sealed1 "encryptedKey" <> prop Scenario.sealed_other "encryptedKey".
Proof.
  refine (proj2 (encryptResponse_fresh_material
           Scenario.R Scenario.store Scenario.payload "k1" Scenario.algorithm
           Scenario.w0 Scenario.w_other Scenario.sealed1 Scenario.sealed_other
           (snd (encryptResponse Scenario.R Scenario.store Scenario.payload "k1"
                                 Scenario.algorithm Scenario.w0))
           (snd (encryptResponse Scenario.R Scenario.store Scenario.payload "k1"
                                 Scenario.algorithm Scenario.w_other))
           Scenario.pub1 Scenario.priv1 Scenario.blob1 Scenario.blob_other
           _ _ _ _ _ _ _ _) _).
  - vm_compute. reflexivity.
  - vm_compute. reflexivity.
  - exact Run.account_key1.
  - exact Run.key_pair1.
  - vm_compute. reflexivity.
  - vm_compute. reflexivity.
  - exact Run.recovers1.
  - exact Run.recovers_other.
  - left. vm_compute. discriminate.
Defined.

(** C4, witness: a payload without encryptedKey. *)
Lemma decryptRequest_missing_field_witness :
  decryptRequest Scenario.R (VObj [("encryptedData", VStr "KiJtayg6LXIkZSoFAwUDBQ==")])
                 Scenario.PEM1 Scenario.algorithm Scenario.w0
  = (Throw (AuthenticationError (VStr "encrypted data, encrypted key cannot null")),
     Scenario.w0).
Proof.
  apply decryptRequest_missing_field; [reflexivity | right; reflexivity].
Defined.

(** C5, witness: an API key the store does not hold. *)
Lemma encryptResponse_unknown_apiKey_witness :
  encryptResponse Scenario.R Scenario.store Scenario.payload "k2"
                  Scenario.algorithm Scenario.w0
  = (Throw (ResourceNotFound (VStr "Invalid api key")), Scenario.w0).
Proof.
  apply encryptResponse_unknown_apiKey. reflexivity.
Defined.

(** C6, witness: a backend that reports a validation error. *)
Lemma relay_error_reply_witness :
  settle (relay Scenario.R "backend:50051" Scenario.operation) Scenario.error_reply
  = Rejected (ParserError (VStr "Cannot query field")
                          (VObj [("code", VStr "GRAPHQL_VALIDATION_FAILED")])
                          (VArr [VObj [("line", VNum 1); ("column", VNum 3)]])).
Proof.
  apply (relay_error_reply Scenario.R "backend:50051" Scenario.operation
                           Scenario.error_reply Scenario.backend_error).
  - vm_compute. reflexivity.
  - vm_compute. reflexivity.
  - vm_compute. reflexivity.
Defined.

(** C7, witness: a backend that replies with an empty envelope. *)
Lemma relay_empty_reply_witness :
  settle (relay Scenario.R "backend:50051" Scenario.operation) Scenario.empty_reply
  = Rejected (ServiceError (VStr "backend:50051 is not found")).
Proof.
  apply (relay_empty_reply Scenario.R "backend:50051" Scenario.operation
                           Scenario.empty_reply); reflexivity.
Defined.

(** C9, witness: the pair sealed by encryptResponse, handed to
    decryptRequest: the key unwrap fails and its message is carried. *)
Lemma decryptRequest_failure_witness :
  decryptRequest Scenario.R Scenario.sealed1 Scenario.PRIV1 Scenario.algorithm
                 Scenario.w0
  = (Throw (AuthenticationError
              (error_message (OpensslError "invalid padding"))),
     logged Scenario.w0
            (CallPublicDecrypt Scenario.PRIV1
               (from_base64 "Fx0us9hONE1smpa/7N5jFAqE1NnTCbJzhFyea93qFrkWDNYc+NljexL0p8/SP3WOMgq02mY7kRm8YDz1lqO9WjkkEsDwMC72rj9RcpTt0Mk="))).
Proof.
  apply decryptRequest_failure; try reflexivity.
  apply fail_key_unwrap. vm_compute. reflexivity.
Defined.

(** C10, witness: the session drawn in the scenario. *)
Lemma session_key_iv_hex_witness :
  VStr Scenario.key1
  = VStr (toString_hex (firstn 16 (firstn 32 (entropy Scenario.w0)))) /\
  VStr Scenario.iv1
  = VStr (toString_hex (firstn 8 (firstn 16 (skipn 32 (entropy Scenario.w0))))) /\
  String.length (session_key Scenario.w0) = 32%nat /\
  String.length (session_iv Scenario.w0) = 16%nat.
Proof.
  destruct (session_key_iv_hex
              Scenario.R Scenario.store Scenario.payload "k1" Scenario.algorithm
              Scenario.w0 _ _ Scenario.algorithm
              (VStr Scenario.key1) (VStr Scenario.iv1) Run.sealed_in_w0)
    as (_ & _ & _ & _ & Hk & Hi & Hlk & Hli & _).
  - vm_compute. right. right. left. reflexivity.
  - repeat split; assumption.
Defined.

(** The translator on a ParserError: the entry of the body. *)
Example handleError_parser_error :
  body (handleError Scenario.parser_error
                    {| statusCode := None; body := None; next_called := false |})
  = Some (VObj [("errors",
       VArr [VObj [("code", VNum 400);
                   ("message", VStr "Cannot query field");
                   ("extensions", VObj [("code", VStr "GRAPHQL_VALIDATION_FAILED")]);
                   ("locations", VArr [VObj [("line", VNum 1); ("column", VNum 3)]])]])]).
Proof. reflexivity. Qed.

(** * The inbound path and the data reply *)

Lemma toString_base64_nonempty b : b <> [] -> truthy (VStr (toString_base64 b)) = true.
Proof.
  intros Hb. unfold toString_base64. simpl.
  destruct b as [| x [| y [| z b]]]; [contradiction | reflexivity ..].
Qed.

Lemma private_encrypt_nonempty key M C : Rsa.private_encrypt key M = Ok C -> C <> [].
Proof.
  unfold Rsa.private_encrypt.
  destruct (Rsa.fits key M) eqn:Hfit; [|discriminate].
  destruct (Rsa.RSADP key _) as [s | e]; [|discriminate].
  intros H. injection H as <-. intros Hnil.
  apply (f_equal (@List.length ascii)) in Hnil.
  rewrite RsaFacts.I2OSP_length in Hnil. simpl in Hnil.
  unfold Rsa.fits in Hfit. apply Nat.leb_le in Hfit. lia.
Qed.

(** What decryptRequest is the inverse of: an envelope whose session
    {key, iv} was serialized and encrypted with the private key
    (crypto.privateEncrypt), and whose data was enciphered under that
    session, is opened with the public key and gives back the plaintext. *)
Theorem decryptRequest_opens_signed_envelope
        R publicKey pub priv algorithm blob wrapped parsed plaintext cipher
        ciphertext w :
  pem_read R publicKey = Ok pub ->
  key_pair pub priv ->
  well_formed blob = true ->
  verifies priv (Rsa.pad_type1 (Rsa.size priv) (bytes_of_string blob)) ->
  Rsa.private_encrypt priv (bytes_of_string blob) = Ok wrapped ->
  JSON_parse R blob = Ok parsed ->
  nullish parsed = false ->
  well_formed plaintext = true ->
  createCipheriv R algorithm (prop parsed "key") (prop parsed "iv") = Ok cipher ->
  cipher_process R cipher (bytes_of_string plaintext) = Ok ciphertext ->
  ciphertext <> [] ->
  symmetric_inverse R algorithm (prop parsed "key") (prop parsed "iv")
                    (bytes_of_string plaintext) ->
  fst (decryptRequest R
         (VObj [("encryptedData", VStr (toString_base64 ciphertext));
                ("encryptedKey", VStr (toString_base64 wrapped))])
         publicKey algorithm w)
  = Ok (VStr plaintext).
Proof.
  intros Hpem Hpair Hwf Hver Henc Hparse Hnull Hwfp Hcreate Hproc Hne Hsym.
  rewrite decryptRequest_checked;
    [| reflexivity
     | simpl; now apply toString_base64_nonempty
     | simpl; apply toString_base64_nonempty;
       exact (private_encrypt_nonempty _ _ _ Henc) ].
  simpl prop.
  erewrite try_catch_ok; [reflexivity|].
  erewrite bind_ok; [| exact (decryptKey_inverts_signature _ _ _ _ _ _ _
                                  Hpem Hpair Hwf Hver Henc)].
  simpl JSON_parse_value. rewrite (bind_lift_ok _ _ _ _ Hparse).
  rewrite (bind_lift_ok _ _ _ _ (prop_of_destructure _ _ _ Hnull)).
  rewrite decryptData_run.
  destruct (Hsym _ _ Hcreate Hproc) as (dctx & Hd & Hp).
  rewrite Hd. simpl update_input. rewrite from_base64_toString, Hp.
  now rewrite toString_utf8_well_formed.
Qed.

(** The scenario: the envelope a client made with PRIV1, opened with PEM1. *)
Lemma decryptRequest_opens_signed_envelope_witness :
  fst (decryptRequest Scenario.R Scenario.envelope1 Scenario.PEM1
                      Scenario.algorithm Scenario.w0)
  = Ok (VStr (Scenario.text_of Scenario.payload)).
Proof.
  apply (decryptRequest_opens_signed_envelope
           Scenario.R Scenario.PEM1 Scenario.pub1 Scenario.priv1 Scenario.algorithm
           Scenario.blob1 Scenario.signed_session
           (VObj [("key", VStr Scenario.key1); ("iv", VStr Scenario.iv1)])
           (Scenario.text_of Scenario.payload)
           {| ctx_algorithm := Scenario.algorithm;
              ctx_key := bytes_of_string Scenario.key1;
              ctx_iv := bytes_of_string Scenario.iv1 |}
           Scenario.enciphered_payload Scenario.w0).
  - vm_compute. reflexivity.
  - exact Run.key_pair1.
  - vm_compute. reflexivity.
  - apply (verifies_fast Scenario.priv1 _ Scenario.exponent1 eq_refl).
    vm_compute. reflexivity.
  - rewrite (private_encrypt_fast Scenario.priv1 _ Scenario.exponent1 eq_refl).
    vm_compute. reflexivity.
  - vm_compute. reflexivity.
  - reflexivity.
  - vm_compute. reflexivity.
  - vm_compute. reflexivity.
  - vm_compute. reflexivity.
  - vm_compute. discriminate.
  - exact Run.symmetric_inverse1.
Defined.

(** When the reply carries data and no error, the promise is fulfilled with
    {data: parsed}, parsed being the JSON the data field holds. *)
Theorem relay_data_reply R url operation response parsed :
  carries_request operation = true ->
  truthy (get response "error") = false ->
  truthy (get response "data") = true ->
  JSON_parse_value R (get response "data") = Ok parsed ->
  settle (relay R url operation) response = Fulfilled (VObj [("data", parsed)]).
Proof.
  intros Hreq Herror Hdata Hparse.
  now rewrite (relay_settle _ _ _ _ Hreq), Herror, Hdata, Hparse.
Qed.

Lemma relay_data_reply_witness :
  settle (relay Scenario.R "backend:50051" Scenario.operation) Scenario.data_reply
  = Fulfilled (VObj [("data", VObj [("uploads", VArr [])])]).
Proof.
  apply (relay_data_reply Scenario.R "backend:50051" Scenario.operation
                          Scenario.data_reply (VObj [("uploads", VArr [])]));
    vm_compute; reflexivity.
Defined.

(** The relay's request envelope in the scenario. *)
Lemma relay_issues_call_witness :
  exists callback,
    relay Scenario.R "backend:50051" Scenario.operation
    = ExecCall "backend:50051"
        (VObj [("headers",
                JSON_stringify Scenario.R
                  (prop (request_of Scenario.operation) "headers"));
               ("query", prop (prop (request_of Scenario.operation) "body") "query")])
        callback.
Proof.
  apply (relay_issues_call Scenario.R "backend:50051" Scenario.operation).
  reflexivity.
Defined.

(** What decryptRequest returns in the scenario is what decryptData
    returned. *)
Lemma decryptRequest_outcome_witness :
  (exists m,
      fst (decryptRequest Scenario.R Scenario.envelope1 Scenario.PEM1
                          Scenario.algorithm Scenario.w0)
      = Throw (Raised (AuthenticationError m))) \/
  (exists key iv w1 plaintext,
      decryptData Scenario.R (prop Scenario.envelope1 "encryptedData") key iv
                  Scenario.algorithm w1
      = (Ok plaintext,
         snd (decryptRequest Scenario.R Scenario.envelope1 Scenario.PEM1
                             Scenario.algorithm Scenario.w0)) /\
      fst (decryptRequest Scenario.R Scenario.envelope1 Scenario.PEM1
                          Scenario.algorithm Scenario.w0)
      = Ok plaintext).
Proof.
  apply (decryptRequest_outcome Scenario.R Scenario.envelope1 Scenario.PEM1
                                Scenario.algorithm Scenario.w0).
  - reflexivity.
  - apply surjective_pairing.
Defined.

(** * More of the module *)

(** ** String.prototype.replace with a string pattern *)

Lemma after_prefix_spec p s rest : after_prefix p s = Some rest <-> s = p ++ rest.
Proof.
  revert s. induction p as [| a p IH]; intros s; simpl.
  - split; [intros H; now injection H | intros ->; reflexivity].
  - destruct s as [| c s]; [split; discriminate|].
    destruct (Ascii.eqb_spec a c) as [<- | Hne].
    + rewrite IH. split; [intros ->; reflexivity | intros H; now injection H].
    + split; [discriminate | intros H; injection H as H _; congruence].
Qed.

Lemma after_prefix_none p s :
  after_prefix p s = None -> forall rest, s <> p ++ rest.
Proof.
  intros H rest Heq. apply after_prefix_spec in Heq. congruence.
Qed.

Lemma replace_first_spec pattern replacement s :
  (replace_first pattern replacement s = s /\
   forall pre, ~ occurs_after pattern pre s) \/
  (exists pre post,
      s = pre ++ pattern ++ post /\
      replace_first pattern replacement s = pre ++ replacement ++ post /\
      forall pre', occurs_after pattern pre' s ->
                   (List.length pre <= List.length pre')%nat).
Proof.
  induction s as [| c s IH].
  - simpl. destruct (after_prefix pattern []) as [rest |] eqn:E.
    + right. apply after_prefix_spec in E. exists [], rest. simpl.
      repeat split; [assumption | intros; lia].
    + left. split; [reflexivity|]. intros pre [post H].
      destruct pre as [| x pre]; [|discriminate].
      exact (after_prefix_none _ _ E post H).
  - cbn [replace_first]. destruct (after_prefix pattern (c :: s)) as [rest |] eqn:E.
    + right. apply after_prefix_spec in E. exists [], rest. simpl.
      repeat split; [assumption | intros; lia].
    + destruct IH as [[Heq Hno] | (pre & post & Hs & Hr & Hmin)].
      * left. split; [now rewrite Heq|]. intros pre [post H].
        destruct pre as [| x pre].
        -- exact (after_prefix_none _ _ E post H).
        -- injection H as _ H. apply (Hno pre). now exists post.
      * right. exists (c :: pre), post. simpl. repeat split.
        -- now rewrite Hs.
        -- now rewrite Hr.
        -- intros pre' [post' H]. destruct pre' as [| x pre'].
           ++ exfalso. exact (after_prefix_none _ _ E post' H).
           ++ injection H as _ H. simpl.
              assert (List.length pre <= List.length pre')%nat; [|lia].
              apply Hmin. now exists post'.
Qed.

(** ** getSchema *)

Lemma settle_schema_unfold R url response :
  settle_schema (getSchema R url) response =
  if truthy (get response "error") then SchemaRejectedValue (get response "error")
  else if negb (truthy (get response "data")) then
    SchemaRejected (ServiceError (VStr (url ++ " is not found")%string))
  else
    match JSON_parse_value R (get response "data") with
    | Throw e => SchemaPending
    | Ok parsed =>
        if nullish parsed then SchemaPending
        else if truthy (prop parsed "getSchema") then
          match prop parsed "getSchema" with
          | VStr text => SchemaFulfilled (String_replace text "getSchema: String" "")
          | _ => SchemaPending
          end
        else SchemaFulfilled ""
    end.
Proof.
  unfold settle_schema, getSchema. cbn [schema_callback].
  destruct (truthy (get response "error")); [reflexivity|].
  destruct (negb (truthy (get response "data"))); [reflexivity|].
  destruct (JSON_parse_value R (get response "data")) as [parsed | e]; [|reflexivity].
  unfold member. destruct (nullish parsed); [reflexivity|].
  destruct (truthy (prop parsed "getSchema")) eqn:Ht; [|reflexivity].
  now destruct (prop parsed "getSchema").
Qed.

(** When the reply has an error field, getSchema rejects with the value of
    that field as it was received: it is neither parsed nor wrapped in an
    error, and the data field is not looked at. *)
Theorem getSchema_error_reply R url response :
  truthy (get response "error") = true ->
  settle_schema (getSchema R url) response
  = SchemaRejectedValue (get response "error").
Proof.
  intros H. now rewrite settle_schema_unfold, H.
Qed.

(** When the reply has neither an error nor data (missing, or empty
    strings), getSchema rejects with the ServiceError of the relay. *)
Theorem getSchema_empty_reply R url response :
  truthy (get response "error") = false ->
  truthy (get response "data") = false ->
  settle_schema (getSchema R url) response
  = SchemaRejected (ServiceError (VStr (url ++ " is not found")%string)).
Proof.
  intros He Hd. now rewrite settle_schema_unfold, He, Hd.
Qed.

(** When the data of the reply is JSON whose getSchema field is a string,
    getSchema resolves with that string less the first occurrence of the
    token "getSchema: String": a text without the token is resolved as it
    is, and of several occurrences only the leftmost is removed. *)
Theorem getSchema_strips_first_token R url response parsed text :
  truthy (get response "error") = false ->
  truthy (get response "data") = true ->
  JSON_parse_value R (get response "data") = Ok parsed ->
  prop parsed "getSchema" = VStr text ->
  text <> EmptyString ->
  exists schema,
    settle_schema (getSchema R url) response = SchemaFulfilled schema /\
    ((schema = text /\
      forall pre, ~ occurs_after (bytes_of_string "getSchema: String") pre
                                 (bytes_of_string text)) \/
     (exists pre post,
         bytes_of_string text = pre ++ bytes_of_string "getSchema: String" ++ post /\
         bytes_of_string schema = pre ++ post /\
         forall pre',
           occurs_after (bytes_of_string "getSchema: String") pre'
                        (bytes_of_string text) ->
           (List.length pre <= List.length pre')%nat)).
Proof.
  intros He Hd Hp Hf Hne.
  assert (Hn : nullish parsed = false)
    by (destruct parsed; try reflexivity; discriminate Hf).
  assert (Ht : truthy (VStr text) = true).
  { simpl. destruct (String.eqb_spec text ""); [contradiction | reflexivity]. }
  exists (String_replace text "getSchema: String" "").
  split.
  - rewrite settle_schema_unfold, He, Hd, Hp, Hn, Hf. simpl negb.
    now rewrite Ht.
  - unfold String_replace.
    destruct (replace_first_spec (bytes_of_string "getSchema: String")
                                 (bytes_of_string "") (bytes_of_string text))
      as [[Heq Hno] | (pre & post & Hs & Hr & Hmin)].
    + left. split; [|exact Hno].
      rewrite Heq. apply string_of_bytes_of_string.
    + right. exists pre, post. split; [exact Hs|]. split; [|exact Hmin].
      rewrite bytes_of_string_of_bytes. exact Hr.
Qed.

(** When the data of the reply is JSON without a getSchema field (or with
    an empty, null, false or zero one), getSchema resolves with the empty
    string. *)
Theorem getSchema_missing_field R url response parsed :
  truthy (get response "error") = false ->
  truthy (get response "data") = true ->
  JSON_parse_value R (get response "data") = Ok parsed ->
  nullish parsed = false ->
  truthy (prop parsed "getSchema") = false ->
  settle_schema (getSchema R url) response = SchemaFulfilled "".
Proof.
  intros He Hd Hp Hn Hf.
  now rewrite settle_schema_unfold, He, Hd, Hp, Hn, Hf.
Qed.

(** When the data of the reply is not JSON, is the JSON null, or holds a
    getSchema field that is truthy and not a string, the error is thrown
    inside the callback: the promise of getSchema is neither resolved nor
    rejected. *)
Theorem getSchema_never_settles R url response :
  truthy (get response "error") = false ->
  truthy (get response "data") = true ->
  (exists e, JSON_parse_value R (get response "data") = Throw e) \/
  (exists parsed,
      JSON_parse_value R (get response "data") = Ok parsed /\
      (nullish parsed = true \/
       (truthy (prop parsed "getSchema") = true /\
        forall text, prop parsed "getSchema" <> VStr text))) ->
  settle_schema (getSchema R url) response = SchemaPending.
Proof.
  intros He Hd H. rewrite settle_schema_unfold, He, Hd. simpl negb. cbv iota.
  destruct H as [[e ->] | (parsed & -> & [Hn | [Ht Hs]])]; [reflexivity | |].
  - now rewrite Hn.
  - destruct (nullish parsed); [reflexivity|]. rewrite Ht.
    destruct (prop parsed "getSchema"); try reflexivity.
    exfalso. now apply (Hs s).
Qed.

(** ** relay: the edges *)

(** An operation without a request, or whose request has no body, makes the
    executor throw a TypeError: no call is issued to the backend, and the
    promise is rejected with that error whatever the backend would reply. *)
Theorem relay_rejects_without_request R url operation :
  carries_request operation = false ->
  exists m,
    relay R url operation = ExecThrow (TypeError m) /\
    forall response, settle (relay R url operation) response = Rejected (TypeError m).
Proof.
  unfold carries_request, request_of, relay, member. intros H.
  destruct (nullish (get (get operation "context.graphqlContext") "req")) eqn:Hreq.
  - eexists. split; [reflexivity | intros; reflexivity].
  - simpl in H. apply negb_false_iff in H. rewrite H.
    eexists. split; [reflexivity | intros; reflexivity].
Qed.

(** A reply whose error field, or else whose data field, is not JSON makes
    JSON.parse throw inside the callback: the promise of the relay is
    neither resolved nor rejected. *)
Theorem relay_never_settles R url operation response :
  carries_request operation = true ->
  (truthy (get response "error") = true /\
   exists e, JSON_parse_value R (get response "error") = Throw e) \/
  (truthy (get response "error") = false /\
   truthy (get response "data") = true /\
   exists e, JSON_parse_value R (get response "data") = Throw e) ->
  settle (relay R url operation) response = Pending.
Proof.
  intros Hreq H. rewrite (relay_settle _ _ _ _ Hreq).
  destruct H as [[He [e Hp]] | (He & Hd & [e Hp])].
  - now rewrite He, Hp.
  - now rewrite He, Hd, Hp.
Qed.

(** Fields that are present and empty count as absent: a reply whose error
    and data are both the empty string (what an unset string field of the
    RPC message reads as) is rejected with the ServiceError of the bound
    URL. *)
Theorem relay_empty_strings_reply R url operation response :
  carries_request operation = true ->
  get response "error" = VStr "" ->
  get response "data" = VStr "" ->
  settle (relay R url operation) response
  = Rejected (ServiceError (VStr (url ++ " is not found")%string)).
Proof.
  intros Hreq He Hd. now rewrite (relay_settle _ _ _ _ Hreq), He, Hd.
Qed.

(** ** decryptRequest: the payload itself *)

(** A payload that is null or undefined is not reported as an
    authentication failure: the destructuring throws a TypeError before the
    field check, outside the try block; nothing else has run. *)
Theorem decryptRequest_null_payload R data publicKey algorithm w :
  nullish data = true ->
  exists m,
    decryptRequest R data publicKey algorithm w = (Throw (TypeError m), w).
Proof.
  intros H. unfold decryptRequest, destructure. rewrite H.
  eexists. reflexivity.
Qed.

(** A field that is present and empty is refused like a missing one: with
    an empty string for encryptedData or for encryptedKey, decryptRequest
    throws its AuthenticationError and leaves the world as it was. *)
Theorem decryptRequest_empty_field R data publicKey algorithm w :
  nullish data = false ->
  prop data "encryptedData" = VStr "" \/ prop data "encryptedKey" = VStr "" ->
  decryptRequest R data publicKey algorithm w
  = (Throw (AuthenticationError (VStr "encrypted data, encrypted key cannot null")), w).
Proof.
  intros Hdata H. apply decryptRequest_falsy_field; [assumption|].
  destruct H as [H | H]; rewrite H; auto.
Qed.

(** ** encryptData and decryptData *)

(** decryptData is the inverse of encryptData: for a well-formed string and
    a cipher whose decryption undoes its encryption under this algorithm,
    key and iv, what encryptData returns is turned back into the string by
    decryptData, in whatever world it runs. *)
Theorem decryptData_inverts_encryptData
        R text symmetricKey iv algorithm w encrypted w1 w2 :
  well_formed text = true ->
  symmetric_inverse R algorithm symmetricKey iv (bytes_of_string text) ->
  encryptData R (VStr text) symmetricKey iv algorithm w = (Ok encrypted, w1) ->
  decryptData R encrypted symmetricKey iv algorithm w2
  = (Ok (VStr text), logged w2 (CallCreateDecipheriv algorithm symmetricKey iv)).
Proof.
  intros Hwf Hsym. rewrite encryptData_run.
  destruct (createCipheriv R algorithm symmetricKey iv) as [cipher | e] eqn:Hc;
    [|discriminate].
  simpl update_input. cbv iota.
  destruct (cipher_process R cipher (bytes_of_string text)) as [out | e] eqn:Hp;
    [|discriminate].
  intros H. injection H as <- _.
  destruct (Hsym _ _ Hc Hp) as (dctx & Hd & Hq).
  rewrite decryptData_run, Hd. simpl update_input.
  rewrite from_base64_toString, Hq.
  now rewrite toString_utf8_well_formed.
Qed.

(** encryptData accepts only a string: for any other data (undefined is
    what JSON.stringify gives for a payload that has no JSON) it throws,
    after the cipher was created, and returns no ciphertext. *)
Theorem encryptData_refuses_non_string R data symmetricKey iv algorithm w :
  (forall text, data <> VStr text) ->
  exists e,
    encryptData R data symmetricKey iv algorithm w
    = (Throw e, logged w (CallCreateCipheriv algorithm symmetricKey iv)).
Proof.
  intros Hdata. rewrite encryptData_run.
  destruct (createCipheriv R algorithm symmetricKey iv) as [cipher | e];
    [|eexists; reflexivity].
  destruct data; try (eexists; reflexivity).
  exfalso. now apply (Hdata s).
Qed.

(** ** encryptKey *)

(** A blob longer than the modulus less eleven octets is refused: encryptKey
    throws after the call of crypto.publicEncrypt, no octet of entropy is
    drawn and nothing is returned. *)
Theorem encryptKey_too_large R publicKey key blob w :
  pem_read R publicKey = Ok key ->
  (Rsa.size key < List.length (bytes_of_string blob) + 11)%nat ->
  encryptKey R publicKey (VStr blob) w
  = (Throw (OpensslError "data too large for key size"),
     logged w (CallPublicEncrypt publicKey (bytes_of_string blob))).
Proof.
  intros Hpem Hlen. rewrite encryptKey_run. simpl Buffer_from. cbv beta iota.
  rewrite crypto_publicEncrypt_run, Hpem.
  unfold Rsa.fits. destruct (Nat.leb_spec (List.length (bytes_of_string blob) + 11)
                                          (Rsa.size key)); [lia | reflexivity].
Qed.

(** What encryptKey returns is the base64 text of exactly as many octets
    as the modulus has, and crypto.privateDecrypt with the private key of
    the pair turns it back into the blob (for a key pair whose private
    operation recovers the padded blob). *)
Theorem encryptKey_opened_by_privateDecrypt
        R publicKey pub priv blob w PS rest encrypted w' :
  pem_read R publicKey = Ok pub ->
  key_pair pub priv ->
  nonzero_octets (entropy w) (Rsa.size pub - 3 - List.length (bytes_of_string blob))
  = Some (PS, rest) ->
  recovers priv (Rsa.pad_type2 PS (bytes_of_string blob)) ->
  encryptKey R publicKey (VStr blob) w = (Ok encrypted, w') ->
  exists text,
    encrypted = VStr text /\
    List.length (from_base64 text) = Rsa.size pub /\
    Rsa.private_decrypt priv (from_base64 text) = Ok (bytes_of_string blob) /\
    entropy w' = rest.
Proof.
  intros Hpem Hpair HPS Hrec. rewrite encryptKey_run. simpl Buffer_from. cbv beta iota.
  rewrite crypto_publicEncrypt_run, Hpem.
  destruct (Rsa.fits pub (bytes_of_string blob)) eqn:Hfit; [|discriminate].
  rewrite HPS.
  destruct (Rsa.public_encrypt pub PS (bytes_of_string blob)) as [C | e] eqn:Henc;
    [|discriminate].
  intros H. injection H as <- <-.
  destruct (RsaFacts.nonzero_octets_spec _ _ _ _ HPS) as [Hl Hnz].
  exists (toString_base64 C). rewrite from_base64_toString.
  repeat split.
  - unfold Rsa.public_encrypt in Henc. rewrite Hfit in Henc.
    injection Henc as <-. apply RsaFacts.I2OSP_length.
  - exact (RsaPairs.private_decrypt_public_encrypt _ _ _ _ _ Hpair Hnz Hl Hrec Henc).
Qed.

(** ** encryptResponse: what a call does on the way *)

Lemma nonzero_octets_length tape n PS rest :
  nonzero_octets tape n = Some (PS, rest) ->
  (List.length rest + n <= List.length tape)%nat.
Proof.
  revert n PS. induction tape as [| b tape IH]; intros [| n] PS; simpl;
    try discriminate; try (intros H; injection H as _ <-; simpl; lia).
  destruct (is_zero_byte b).
  - intros H. apply IH in H. lia.
  - destruct (nonzero_octets tape n) as [[bs r] |] eqn:E; [|discriminate].
    intros H. injection H as _ <-. apply IH in E. lia.
Qed.

(** A call that returns has made exactly four calls into the crypto
    module, in this order: randomBytes(32), randomBytes(16), createCipheriv
    with the session drawn, publicEncrypt of the serialized session; it
    returns an object with the two string fields; and it has consumed at
    least 56 octets of entropy (48 for the session, 8 or more of padding). *)
Theorem encryptResponse_effects R redis responseData apiKey algorithm w payload w' :
  encryptResponse R redis responseData apiKey algorithm w = (Ok payload, w') ->
  exists publicKey blob encryptedData encryptedKey,
    new_calls w w'
    = [CallRandomBytes 32; CallRandomBytes 16;
       CallCreateCipheriv algorithm (VStr (session_key w)) (VStr (session_iv w));
       CallPublicEncrypt publicKey blob] /\
    Buffer_from R (session_blob R w) bytes_of_string = Ok blob /\
    payload = VObj [("encryptedData", VStr encryptedData);
                    ("encryptedKey", VStr encryptedKey)] /\
    (List.length (entropy w') + 56 <= List.length (entropy w))%nat.
Proof.
  intros Hrun.
  destruct (encryptResponse_ok _ _ _ _ _ _ _ _ Hrun)
    as (pub & cipher & input & encrypted & blob & PS & wrapped & publicKey
        & _ & Hlen & _ & _ & _ & Hbuf & HPS & Henc & -> & Hcalls).
  exists publicKey, blob, (toString_base64 encrypted), (toString_base64 wrapped).
  repeat split; try assumption.
  apply nonzero_octets_length in HPS. rewrite length_skipn in HPS.
  unfold Rsa.public_encrypt in Henc.
  destruct (Rsa.fits pub blob) eqn:Hfit; [|discriminate].
  unfold Rsa.fits in Hfit. apply Nat.leb_le in Hfit. lia.
Qed.

(** A record stored as the empty string is treated as no record: the call
    throws ResourceNotFound and leaves the world as it was. *)
Theorem encryptResponse_empty_record R redis responseData apiKey algorithm w :
  redis_get redis apiKey = Ok (Some EmptyString) ->
  encryptResponse R redis responseData apiKey algorithm w
  = (Throw (ResourceNotFound (VStr "Invalid api key")), w).
Proof.
  intros Hget. unfold encryptResponse.
  rewrite (bind_lift_ok _ _ _ _ Hget). reflexivity.
Qed.

(** A record that is not JSON makes the call throw the error of JSON.parse;
    no random octet is drawn and no call into the crypto module is made. *)
Theorem encryptResponse_malformed_record
        R redis responseData apiKey algorithm w stored e :
  redis_get redis apiKey = Ok (Some stored) ->
  stored <> EmptyString ->
  JSON_parse R stored = Throw e ->
  encryptResponse R redis responseData apiKey algorithm w = (Throw e, w).
Proof.
  intros Hget Hne Hparse. unfold encryptResponse.
  rewrite (bind_lift_ok _ _ _ _ Hget).
  assert (Ht : truthy (VStr stored) = true).
  { simpl. destruct (String.eqb_spec stored ""); [contradiction | reflexivity]. }
  rewrite Ht. cbn [negb].
  change (JSON_parse_value R (VStr stored)) with (JSON_parse R stored).
  now rewrite (bind_lift_throw _ _ _ _ Hparse).
Qed.

(** No pair is returned for an account whose public key cannot be read (the
    record lacks account.publicKey, or holds no key): every call throws,
    whatever the entropy source delivers. *)
Theorem encryptResponse_unreadable_key R redis responseData apiKey algorithm e w :
  account_key R redis apiKey = Throw e ->
  exists e' w',
    encryptResponse R redis responseData apiKey algorithm w = (Throw e', w').
Proof.
  intros Hacc.
  destruct (encryptResponse R redis responseData apiKey algorithm w)
    as [[payload | e'] w'] eqn:Hrun; [|eauto].
  destruct (encryptResponse_ok _ _ _ _ _ _ _ _ Hrun) as (pub & ? & ? & ? & ? & ? & ? & ? & Hacc' & _).
  congruence.
Qed.

(** A payload that has no JSON (JSON.stringify gives undefined for it) is
    never sealed: every call throws. *)
Theorem encryptResponse_unserializable_payload
        R redis responseData apiKey algorithm w :
  JSON_stringify R responseData = VUndefined ->
  exists e w',
    encryptResponse R redis responseData apiKey algorithm w = (Throw e, w').
Proof.
  intros Hjson.
  destruct (encryptResponse R redis responseData apiKey algorithm w)
    as [[payload | e'] w'] eqn:Hrun; [|eauto].
  destruct (encryptResponse_ok _ _ _ _ _ _ _ _ Hrun)
    as (pub & ? & ? & ? & ? & ? & ? & ? & _ & _ & _ & Hin & _).
  rewrite Hjson in Hin. discriminate.
Qed.

(** ** handleError: the entry has each field once *)

Lemma NoDup_filter {A} (f : A -> bool) (l : list A) : NoDup l -> NoDup (filter f l).
Proof.
  induction 1 as [| x l Hx Hl IH]; simpl; [constructor|].
  destruct (f x); [|assumption].
  constructor; [|assumption]. intros Hin. apply filter_In in Hin. tauto.
Qed.

(** The entry of the body holds no field twice: for an error whose
    property names are distinct, the names of the entry are distinct too
    (code and message are taken out of the rest before they are put
    first), and the translator has called next. *)
Theorem handleError_distinct_fields err res :
  NoDup (keys err) ->
  exists e,
    body (handleError err res) = Some (VObj [("errors", VArr [VObj e])]) /\
    NoDup (keys e) /\
    next_called (handleError err res) = true.
Proof.
  intros Hnd. eexists. split; [reflexivity|]. split; [|reflexivity].
  simpl. rewrite (keys_filter is_rest_key).
  assert (Hrest : forall k, In k (filter is_rest_key (keys err)) ->
                            k <> "code" /\ k <> "message").
  { intros k Hk. apply filter_In in Hk as [_ Hk]. unfold is_rest_key in Hk.
    apply negb_true_iff, orb_false_iff in Hk as [Hm Hc].
    apply String.eqb_neq in Hm, Hc. auto. }
  constructor.
  - intros [H | H]; [discriminate|]. apply Hrest in H. tauto.
  - constructor.
    + intros H. apply Hrest in H. tauto.
    + now apply NoDup_filter.
Qed.

(** * The edges, run *)

(** The scenario for [getSchema_error_reply]. *)
Lemma getSchema_error_reply_witness :
  settle_schema (getSchema Scenario.R "backend:50051") Scenario.plain_error_reply
  = SchemaRejectedValue (VStr "14 UNAVAILABLE").
Proof.
  apply (getSchema_error_reply Scenario.R "backend:50051" Scenario.plain_error_reply).
  reflexivity.
Defined.

(** The scenario for [getSchema_empty_reply]. *)
Lemma getSchema_empty_reply_witness :
  settle_schema (getSchema Scenario.R "backend:50051") Scenario.grpc_default_reply
  = SchemaRejected (ServiceError (VStr "backend:50051 is not found")).
Proof.
  apply (getSchema_empty_reply Scenario.R "backend:50051" Scenario.grpc_default_reply);
    reflexivity.
Defined.

(** The scenario for [getSchema_strips_first_token]. *)
Lemma getSchema_strips_first_token_witness :
  exists schema,
    settle_schema (getSchema Scenario.R "backend:50051") Scenario.schema_reply
    = SchemaFulfilled schema /\
    ((schema = Scenario.schema_text /\
      forall pre, ~ occurs_after (bytes_of_string "getSchema: String") pre
                                 (bytes_of_string Scenario.schema_text)) \/
     (exists pre post,
         bytes_of_string Scenario.schema_text
         = pre ++ bytes_of_string "getSchema: String" ++ post /\
         bytes_of_string schema = pre ++ post /\
         forall pre',
           occurs_after (bytes_of_string "getSchema: String") pre'
                        (bytes_of_string Scenario.schema_text) ->
           (List.length pre <= List.length pre')%nat)).
Proof.
  apply (getSchema_strips_first_token
           Scenario.R "backend:50051" Scenario.schema_reply
           (VObj [("getSchema", VStr Scenario.schema_text)]) Scenario.schema_text).
  - reflexivity.
  - vm_compute. reflexivity.
  - vm_compute. reflexivity.
  - reflexivity.
  - discriminate.
Defined.

(** The schema text of the scenario holds the token twice; the leftmost
    occurrence is the one removed. *)
Example getSchema_schema_reply :
  settle_schema (getSchema Scenario.R "backend:50051") Scenario.schema_reply
  = SchemaFulfilled "type Query {  uploads: [File] getSchema: String }".
Proof. vm_compute. reflexivity. Qed.

(** The scenario for [getSchema_missing_field]. *)
Lemma getSchema_missing_field_witness :
  settle_schema (getSchema Scenario.R "backend:50051")
                Scenario.schema_reply_without_field
  = SchemaFulfilled "".
Proof.
  apply (getSchema_missing_field
           Scenario.R "backend:50051" Scenario.schema_reply_without_field
           (VObj [("other", VNum 1)])).
  - reflexivity.
  - vm_compute. reflexivity.
  - vm_compute. reflexivity.
  - reflexivity.
  - reflexivity.
Defined.

(** The scenario for [getSchema_never_settles]. *)
Lemma getSchema_never_settles_witness :
  settle_schema (getSchema Scenario.R "backend:50051") Scenario.malformed_reply
  = SchemaPending.
Proof.
  apply (getSchema_never_settles Scenario.R "backend:50051" Scenario.malformed_reply).
  - reflexivity.
  - reflexivity.
  - left. exists (SyntaxError "Unexpected token in JSON"). vm_compute. reflexivity.
Defined.

(** The scenario for [relay_rejects_without_request]. *)
Lemma relay_rejects_without_request_witness :
  exists m,
    relay Scenario.R "backend:50051" Scenario.bare_operation = ExecThrow (TypeError m) /\
    forall response,
      settle (relay Scenario.R "backend:50051" Scenario.bare_operation) response
      = Rejected (TypeError m).
Proof.
  apply (relay_rejects_without_request Scenario.R "backend:50051"
                                       Scenario.bare_operation).
  reflexivity.
Defined.

(** The scenario for [relay_never_settles]. *)
Lemma relay_never_settles_witness :
  settle (relay Scenario.R "backend:50051" Scenario.operation) Scenario.malformed_reply
  = Pending.
Proof.
  apply (relay_never_settles Scenario.R "backend:50051" Scenario.operation
                             Scenario.malformed_reply).
  - reflexivity.
  - right. split; [reflexivity|]. split; [reflexivity|].
    exists (SyntaxError "Unexpected token in JSON"). vm_compute. reflexivity.
Defined.

(** The scenario for [relay_empty_strings_reply]. *)
Lemma relay_empty_strings_reply_witness :
  settle (relay Scenario.R "backend:50051" Scenario.operation)
         Scenario.grpc_default_reply
  = Rejected (ServiceError (VStr "backend:50051 is not found")).
Proof.
  apply (relay_empty_strings_reply Scenario.R "backend:50051" Scenario.operation
                                   Scenario.grpc_default_reply); reflexivity.
Defined.

(** The scenario for [decryptRequest_null_payload]. *)
Lemma decryptRequest_null_payload_witness :
  exists m,
    decryptRequest Scenario.R VNull Scenario.PEM1 Scenario.algorithm Scenario.w0
    = (Throw (TypeError m), Scenario.w0).
Proof.
  apply (decryptRequest_null_payload Scenario.R VNull Scenario.PEM1
                                     Scenario.algorithm Scenario.w0).
  reflexivity.
Defined.

(** The scenario for [decryptRequest_empty_field]. *)
Lemma decryptRequest_empty_field_witness :
  decryptRequest Scenario.R
                 (VObj [("encryptedData", VStr ""); ("encryptedKey", VStr "AAAA")])
                 Scenario.PEM1 Scenario.algorithm Scenario.w0
  = (Throw (AuthenticationError (VStr "encrypted data, encrypted key cannot null")),
     Scenario.w0).
Proof.
  apply decryptRequest_empty_field; [reflexivity | left; reflexivity].
Defined.

(** The scenario for [decryptData_inverts_encryptData]. *)
Lemma decryptData_inverts_encryptData_witness :
  decryptData Scenario.R (VStr "KiJtayg6LXIkZSoFAwUDBQ==")
              (VStr Scenario.key1) (VStr Scenario.iv1) Scenario.algorithm Scenario.w0
  = (Ok (VStr (Scenario.text_of Scenario.payload)),
     logged Scenario.w0
            (CallCreateDecipheriv Scenario.algorithm
               (VStr Scenario.key1) (VStr Scenario.iv1))).
Proof.
  apply (decryptData_inverts_encryptData
           Scenario.R (Scenario.text_of Scenario.payload)
           (VStr Scenario.key1) (VStr Scenario.iv1) Scenario.algorithm
           Scenario.w0 (VStr "KiJtayg6LXIkZSoFAwUDBQ==")
           (logged Scenario.w0
                   (CallCreateCipheriv Scenario.algorithm
                      (VStr Scenario.key1) (VStr Scenario.iv1)))
           Scenario.w0).
  - vm_compute. reflexivity.
  - exact Run.symmetric_inverse1.
  - vm_compute. reflexivity.
Defined.

(** The scenario for [encryptData_refuses_non_string]. *)
Lemma encryptData_refuses_non_string_witness :
  exists e,
    encryptData Scenario.R VUndefined (VStr Scenario.key1) (VStr Scenario.iv1)
                Scenario.algorithm Scenario.w0
    = (Throw e,
       logged Scenario.w0
              (CallCreateCipheriv Scenario.algorithm
                 (VStr Scenario.key1) (VStr Scenario.iv1))).
Proof.
  apply (encryptData_refuses_non_string
           Scenario.R VUndefined (VStr Scenario.key1) (VStr Scenario.iv1)
           Scenario.algorithm Scenario.w0).
  intros text. discriminate.
Defined.

(** The scenario for [encryptKey_too_large]. *)
Lemma encryptKey_too_large_witness :
  encryptKey Scenario.R Scenario.PEM1 (VStr Scenario.long_blob) Scenario.w_key
  = (Throw (OpensslError "data too large for key size"),
     logged Scenario.w_key
            (CallPublicEncrypt Scenario.PEM1 (bytes_of_string Scenario.long_blob))).
Proof.
  apply (encryptKey_too_large Scenario.R Scenario.PEM1 Scenario.pub1
                              Scenario.long_blob Scenario.w_key).
  - vm_compute. reflexivity.
  - apply Nat.ltb_lt. vm_compute. reflexivity.
Defined.

(** The scenario for [encryptKey_opened_by_privateDecrypt]. *)
Lemma encryptKey_opened_by_privateDecrypt_witness :
  exists text,
    VStr Scenario.wrapped_token = VStr text /\
    List.length (from_base64 text) = Rsa.size Scenario.pub1 /\
    Rsa.private_decrypt Scenario.priv1 (from_base64 text)
    = Ok (bytes_of_string Scenario.token) /\
    entropy (snd (encryptKey Scenario.R Scenario.PEM1 (VStr Scenario.token)
                             Scenario.w_key))
    = skipn 61 (entropy Scenario.w_key).
Proof.
  apply (encryptKey_opened_by_privateDecrypt
           Scenario.R Scenario.PEM1 Scenario.pub1 Scenario.priv1 Scenario.token
           Scenario.w_key (firstn 61 (entropy Scenario.w_key))
           (skipn 61 (entropy Scenario.w_key))).
  - vm_compute. reflexivity.
  - exact Run.key_pair1.
  - vm_compute. reflexivity.
  - apply (recovers_fast Scenario.priv1 _ Scenario.exponent1 eq_refl).
    vm_compute. reflexivity.
  - vm_compute. reflexivity.
Defined.

(** The scenario for [encryptResponse_effects]. *)
Lemma encryptResponse_effects_witness :
  exists publicKey blob encryptedData encryptedKey,
    new_calls Scenario.w0
              {| entropy := [];
                 calls := [CallRandomBytes 32; CallRandomBytes 16;
                           CallCreateCipheriv Scenario.algorithm
                             (VStr Scenario.key1) (VStr Scenario.iv1);
                           CallPublicEncrypt Scenario.PEM1
                             (bytes_of_string Scenario.blob1)] |}
    = [CallRandomBytes 32; CallRandomBytes 16;
       CallCreateCipheriv Scenario.algorithm
         (VStr (session_key Scenario.w0)) (VStr (session_iv Scenario.w0));
       CallPublicEncrypt publicKey blob] /\
    Buffer_from Scenario.R (session_blob Scenario.R Scenario.w0) bytes_of_string
    = Ok blob /\
    Scenario.sealed1 = VObj [("encryptedData", VStr encryptedData);
                             ("encryptedKey", VStr encryptedKey)] /\
    (List.length (@nil ascii) + 56 <= List.length (entropy Scenario.w0))%nat.
Proof.
  exact (encryptResponse_effects
           Scenario.R Scenario.store Scenario.payload "k1" Scenario.algorithm
           Scenario.w0 Scenario.sealed1 _ Run.sealed_in_w0).
Defined.

(** The scenario for [encryptResponse_empty_record]. *)
Lemma encryptResponse_empty_record_witness :
  encryptResponse Scenario.R Scenario.odd_store Scenario.payload "k3"
                  Scenario.algorithm Scenario.w0
  = (Throw (ResourceNotFound (VStr "Invalid api key")), Scenario.w0).
Proof.
  apply encryptResponse_empty_record. reflexivity.
Defined.

(** The scenario for [encryptResponse_malformed_record]. *)
Lemma encryptResponse_malformed_record_witness :
  encryptResponse Scenario.R Scenario.odd_store Scenario.payload "k4"
                  Scenario.algorithm Scenario.w0
  = (Throw (SyntaxError "Unexpected token in JSON"), Scenario.w0).
Proof.
  apply (encryptResponse_malformed_record
           Scenario.R Scenario.odd_store Scenario.payload "k4" Scenario.algorithm
           Scenario.w0 "not json").
  - reflexivity.
  - discriminate.
  - vm_compute. reflexivity.
Defined.

(** The scenario for [encryptResponse_unreadable_key]. *)
Lemma encryptResponse_unreadable_key_witness :
  exists e' w',
    encryptResponse Scenario.R Scenario.odd_store Scenario.payload "k5"
                    Scenario.algorithm Scenario.w0
    = (Throw e', w').
Proof.
  apply (encryptResponse_unreadable_key
           Scenario.R Scenario.odd_store Scenario.payload "k5" Scenario.algorithm
           (TypeError "The key argument must be of type string") Scenario.w0).
  vm_compute. reflexivity.
Defined.

(** The scenario for [encryptResponse_unserializable_payload]. *)
Lemma encryptResponse_unserializable_payload_witness :
  exists e w',
    encryptResponse Scenario.R Scenario.store VUndefined "k1"
                    Scenario.algorithm Scenario.w0
    = (Throw e, w').
Proof.
  apply (encryptResponse_unserializable_payload
           Scenario.R Scenario.store VUndefined "k1" Scenario.algorithm Scenario.w0).
  reflexivity.
Defined.

(** The scenario for [handleError_distinct_fields]. *)
Lemma handleError_distinct_fields_witness :
  exists e,
    body (handleError Scenario.parser_error
            {| statusCode := None; body := None; next_called := false |})
    = Some (VObj [("errors", VArr [VObj e])]) /\
    NoDup (keys e) /\
    next_called (handleError Scenario.parser_error
                   {| statusCode := None; body := None; next_called := false |})
    = true.
Proof.
  apply handleError_distinct_fields.
  simpl. repeat constructor; simpl; intuition discriminate.
Defined.
